(** * Token aggregation service: retrying fetch client, cache store,
      scheduler jobs, query handler and broadcast gateway.

    The JavaScript modules [redisClient], [apiClient], [scheduler] and
    [websocket] are embedded as functions over an explicit world: the
    Redis key space with expiry instants, a clock, the upstream HTTP
    oracle, the [Math.random] stream, the timers that were armed, the
    console and the pub/sub channel.  An [async] function is a
    computation that threads the world and completes either normally or
    abruptly (a rejected promise); concurrent awaits ([Promise.all],
    [Promise.allSettled]) are run left to right.  A call that is not
    awaited is left pending in the world; [event_loop] completes it.

    Numbers: JavaScript numbers are IEEE doubles.  A finite number is
    kept as the rational it denotes, next to [NaN] and the two
    infinities.  The arithmetic of the program on prices and delays
    ([-], [/], [*], [+], [**]) rounds its exact result to the nearest
    double ([Js.round]).  Indices and limits are integers and exact; a
    sort comparator is used for its sign only, which rounding keeps. *)

From Stdlib Require Import ZArith QArith Qabs Qround Qpower Lqa String Ascii List Bool Lia.
From Stdlib Require Import DecimalString.
From Stdlib Require Import Sorting.Sorted Sorting.Permutation DecimalPos.
From stdpp Require Import base option list strings gmap.

Close Scope Q_scope.
Set Warnings "-register-all".
Open Scope string_scope.
Open Scope list_scope.

(** ** JavaScript values the code computes with *)

Module Js.

(** A number: finite, [NaN], or an infinity ([negative = true] for
    [-Infinity]). *)
Inductive Num :=
| Fin (q : Q)
| NaN
| Infinity (negative : bool).

Definition Qlt_bool (a b : Q) : bool := negb (Qle_bool b a).
Definition Qeq0 (a : Q) : bool := Qeq_bool a 0.

(** *** Rounding to a double

    A finite double is [m * 2^e] for integers [|m| < 2^53] and
    [-1074 <= e <= 971]. An operation yields its exact result rounded
    to the nearest double, ties to the even significand; a result that
    rounds to [2^1024] or beyond is an infinity. *)

Definition pow2 (e : Z) : Q := (2 ^ e)%Q.

(** [floor (log2 q)] for [q > 0]. *)
Definition ilog2 (q : Q) : Z :=
  let e := (Z.log2 (Qnum q) - Z.log2 (Z.pos (Qden q)))%Z in
  if Qle_bool (pow2 e) q then e else (e - 1)%Z.

(** The nearest integer, ties to even. *)
Definition rne (q : Q) : Z :=
  let f := Qfloor q in
  match (q - inject_Z f ?= 1 # 2)%Q with
  | Lt => f
  | Gt => (f + 1)%Z
  | Eq => if Z.even f then f else (f + 1)%Z
  end.

(** The exponent of the last place of the doubles around [q > 0]:
    53 significant bits, and never below the subnormal spacing. *)
Definition exponent (q : Q) : Z := Z.max (ilog2 q - 52) (-1074).

(** [q > 0] rounded to 53 bits, before the range check. *)
Definition nearest (q : Q) : Q :=
  (inject_Z (rne (q / pow2 (exponent q))) * pow2 (exponent q))%Q.

Definition round_pos (q : Q) : Num :=
  let r := nearest q in
  if Qle_bool (pow2 1024) r then Infinity false else Fin (Qred r).

Definition neg (a : Num) : Num :=
  match a with
  | Fin x => Fin (- x)
  | NaN => NaN
  | Infinity s => Infinity (negb s)
  end.

(** The double nearest to [q]; the sign of a zero is not kept. *)
Definition round (q : Q) : Num :=
  match (q ?= 0)%Q with
  | Eq => Fin 0
  | Gt => round_pos q
  | Lt => neg (round_pos (- q))
  end.

(** [q] is the value of a double. *)
Definition is_double (q : Q) : bool :=
  match round q with
  | Fin r => Qeq_bool r q
  | _ => false
  end.

(** *** Arithmetic *)

Definition add (a b : Num) : Num :=
  match a, b with
  | NaN, _ | _, NaN => NaN
  | Fin x, Fin y => round (x + y)
  | Infinity s, Fin _ | Fin _, Infinity s => Infinity s
  | Infinity s, Infinity s' => if Bool.eqb s s' then Infinity s else NaN
  end.

Definition sub (a b : Num) : Num :=
  match a, b with
  | NaN, _ | _, NaN => NaN
  | Fin x, Fin y => round (x - y)
  | Infinity s, Fin _ => Infinity s
  | Fin _, Infinity s => Infinity (negb s)
  | Infinity s, Infinity s' => if Bool.eqb s s' then NaN else Infinity s
  end.

Definition mul (a b : Num) : Num :=
  match a, b with
  | NaN, _ | _, NaN => NaN
  | Fin x, Fin y => round (x * y)
  | Infinity s, Fin y | Fin y, Infinity s =>
      if Qeq0 y then NaN else Infinity (xorb s (Qlt_bool y 0))
  | Infinity s, Infinity s' => Infinity (xorb s s')
  end.

(** [2 ** i] for a count [i]. *)
Definition pow_2 (i : nat) : Num := round (pow2 (Z.of_nat i)).

Definition abs (a : Num) : Num :=
  match a with
  | Fin x => Fin (Qabs x)
  | NaN => NaN
  | Infinity _ => Infinity false
  end.

(** Division; a zero divisor is [+0] (the divisors of this program are
    read back from JSON text written by [JSON.stringify], which never
    prints [-0]). *)
Definition div (a b : Num) : Num :=
  match a, b with
  | NaN, _ | _, NaN => NaN
  | Fin x, Fin y =>
      if Qeq0 y then
        if Qeq0 x then NaN else Infinity (Qlt_bool x 0)
      else round (x / y)
  | Infinity s, Fin y => Infinity (xorb s (Qlt_bool y 0))
  | Fin _, Infinity _ => Fin 0
  | Infinity _, Infinity _ => NaN
  end.

(** [a > b]; false whenever an operand is [NaN]. *)
Definition gt (a b : Num) : bool :=
  match a, b with
  | NaN, _ | _, NaN => false
  | Fin x, Fin y => Qlt_bool y x
  | Infinity s, Fin _ => negb s
  | Fin _, Infinity s => s
  | Infinity s, Infinity s' => negb s && s'
  end.

(** [a <= b]; false whenever an operand is [NaN]. *)
Definition le (a b : Num) : bool :=
  match a, b with
  | NaN, _ | _, NaN => false
  | Fin x, Fin y => Qle_bool x y
  | Infinity s, Fin _ => s
  | Fin _, Infinity s => negb s
  | Infinity s, Infinity s' => s || negb s'
  end.

(** The number [JSON.stringify] writes: [NaN] and the infinities become
    [null]. *)
Definition to_json (a : Num) : option Q :=
  match a with
  | Fin x => Some x
  | _ => None
  end.

(** What a thrown value is. [AxiosError r]: [r] is [error.response?.status]. *)
Inductive Error :=
| AxiosError (response : option Z)
| TypeError (what : string)
| ReferenceError (ident : string)
| PlainError (message : string)
| SyntaxError
| RedisError.

(** How a call completes: normally with a value, or abruptly. *)
Inductive Completion (A : Type) :=
| Return (a : A)
| Throw (e : Error).
Arguments Return {A} a.
Arguments Throw {A} e.

End Js.
Export Js.

(** ** Data model *)

Record TokenRecord := mkToken {
  id : string;
  price : Q;
  volume24h : Q;
  priceChange1h : Q;
  priceChange24h : Q
}.

(** [volume.h24] of a DexScreener pair; [None] when the property is
    missing or null. *)
Record Volume := mkVolume { h24 : option Q }.

(** A DexScreener pair as the ticker reads it: [priceUsd] is the value
    of [parseFloat(pair.priceUsd)]; [volume] is [None] when the pair has
    no [volume] object. *)
Record Pair := mkPair {
  priceUsd : Js.Num;
  volume : option Volume
}.

(** A response body ([response.data]). [BodyNull] is null/undefined;
    [BodyObject] carries the properties this program reads ([None] when
    missing); [BodyArray] is an array of opaque entries. *)
Inductive Body :=
| BodyNull
| BodyObject (pairs : option (list Pair)) (data included : option (list string))
| BodyArray (entries : list string).

Record RawSourceResult := mkRaw {
  symbol : string;
  dexScreener : option (list Pair);
  jupiterPrice : option Body
}.

Record Pagination := mkPagination {
  limit : option Z;            (* [None]: NaN, serialised as null *)
  nextCursor : option string
}.

Record QueryResultView := mkView {
  data : list TokenRecord;
  pagination : Pagination;
  cached : bool;
  cacheTime : Q
}.

Record PriceUpdateEvent := mkUpdate {
  u_symbol : string;
  u_price : option Q;
  u_volume24h : option Q;
  u_timestamp : Q
}.

(** The JSON documents this program keeps in Redis. *)
Inductive Stored :=
| SCatalog (l : list TokenRecord)
| SView (v : QueryResultView)
| STicker (price : option Q).

(** ** The world the program runs in *)

Inductive AxiosOutcome :=
| Response (body : Body)              (* a 2xx reply *)
| Reject (response : option Z).       (* a rejection; the status when there was a reply *)

Inductive LogLine :=
| ApiRetry (url : string) (status : option Z) (delay : Js.Num) (attempt retries : nat)
| SchedulerStarting
| SchedulerUpdated (n : nat) (key : string)
| SchedulerFailed (e : Js.Error)
| CronScheduled (expression : string)
| TickerPublished (p : Js.Num)
| CacheHit (sortBy : string)
| ListError (e : Js.Error).

Inductive Level := LOG | WARN | ERROR.

Definition level (l : LogLine) : Level :=
  match l with
  | ApiRetry _ _ _ _ _ => WARN
  | SchedulerFailed _ | ListError _ => ERROR
  | _ => LOG
  end.

(** An [async] call that was started without [await]: its caller goes
    on, and the event loop completes the call later. *)
Inductive Job :=
| SeedingRun.    (* [runFullAggregation()] of [startScheduler], from its first [await] on *)

(** Times are in milliseconds. [store] maps a key to its document and
    the instant it expires. [http url n] is what the upstream answers
    to the [n]-th request for [url]; [random n] is the [n]-th value of
    [Math.random]; [redis_up n] tells whether the [n]-th Redis command
    is served; [timeouts] lists the delays handed to [setTimeout];
    [pending] lists the calls that were started and not completed. *)
Record World := mkWorld {
  store : gmap string (Stored * Q);
  now : Q;
  redis_up : nat -> bool;
  redis_cmds : nat;
  http : string -> nat -> AxiosOutcome;
  requests : list string;
  random : nat -> Q;
  random_calls : nat;
  timeouts : list Js.Num;
  console : list LogLine;
  published : list (string * PriceUpdateEvent);
  pending : list Job
}.

Definition with_store (f : gmap string (Stored * Q) -> gmap string (Stored * Q)) (w : World) : World :=
  mkWorld (f (store w)) (now w) (redis_up w) (redis_cmds w) (http w) (requests w)
          (random w) (random_calls w) (timeouts w) (console w) (published w)
          (pending w).

Definition with_now (t : Q) (w : World) : World :=
  mkWorld (store w) t (redis_up w) (redis_cmds w) (http w) (requests w)
          (random w) (random_calls w) (timeouts w) (console w) (published w)
          (pending w).

Definition next_redis_cmd (w : World) : World :=
  mkWorld (store w) (now w) (redis_up w) (S (redis_cmds w)) (http w) (requests w)
          (random w) (random_calls w) (timeouts w) (console w) (published w)
          (pending w).

Definition add_request (url : string) (w : World) : World :=
  mkWorld (store w) (now w) (redis_up w) (redis_cmds w) (http w) (requests w ++ [url])
          (random w) (random_calls w) (timeouts w) (console w) (published w)
          (pending w).

Definition next_random (w : World) : World :=
  mkWorld (store w) (now w) (redis_up w) (redis_cmds w) (http w) (requests w)
          (random w) (S (random_calls w)) (timeouts w) (console w) (published w)
          (pending w).

(** What Node makes of the delay of [setTimeout]: a delay that is not
    in [1, 2^31 - 1] is replaced by 1; the timer runs for whole
    milliseconds. *)
Definition timer_ms (d : Js.Num) : Q :=
  match d with
  | Fin q => if Qle_bool 1 q && Qle_bool q 2147483647 then inject_Z (Qfloor q) else 1%Q
  | _ => 1%Q
  end.

Definition add_timeout (d : Js.Num) (w : World) : World :=
  mkWorld (store w) (now w + timer_ms d)%Q (redis_up w) (redis_cmds w) (http w) (requests w)
          (random w) (random_calls w) (timeouts w ++ [d]) (console w) (published w)
          (pending w).

Definition add_log (l : LogLine) (w : World) : World :=
  mkWorld (store w) (now w) (redis_up w) (redis_cmds w) (http w) (requests w)
          (random w) (random_calls w) (timeouts w) (console w ++ [l]) (published w)
          (pending w).

Definition add_published (m : string * PriceUpdateEvent) (w : World) : World :=
  mkWorld (store w) (now w) (redis_up w) (redis_cmds w) (http w) (requests w)
          (random w) (random_calls w) (timeouts w) (console w) (published w ++ [m])
          (pending w).

Definition with_pending (js : list Job) (w : World) : World :=
  mkWorld (store w) (now w) (redis_up w) (redis_cmds w) (http w) (requests w)
          (random w) (random_calls w) (timeouts w) (console w) (published w) js.

(** ** Computations *)

(** A computation over a state [S]: it threads the state and completes
    normally or abruptly. *)
Definition Eff (S A : Type) : Type := S -> Js.Completion A * S.

Definition ret {S A} (a : A) : Eff S A := fun w => (Return a, w).

Definition throw {S A} (e : Js.Error) : Eff S A := fun w => (Throw e, w).

Definition bind {S A B} (m : Eff S A) (k : A -> Eff S B) : Eff S B :=
  fun w =>
    match m w with
    | (Return a, w') => k a w'
    | (Throw e, w') => (Throw e, w')
    end.

(** [try { m } catch (error) { h error }] *)
Definition try_catch {S A} (m : Eff S A) (h : Js.Error -> Eff S A) : Eff S A :=
  fun w =>
    match m w with
    | (Return a, w') => (Return a, w')
    | (Throw e, w') => h e w'
    end.

(** [Promise.allSettled] on one promise: the completion as a value. *)
Definition settled {S A} (m : Eff S A) : Eff S (Js.Completion A) :=
  fun w => let (c, w') := m w in (Return c, w').

(** [Promise.all([a, b])]: both run to completion whatever the other
    does; the result is rejected when one of them is. *)
Definition promise_all2 {S A B} (a : Eff S A) (b : Eff S B) : Eff S (A * B) :=
  fun w =>
    let (ca, w1) := a w in
    let (cb, w2) := b w1 in
    match ca, cb with
    | Return x, Return y => (Return (x, y), w2)
    | Throw e, _ => (Throw e, w2)
    | _, Throw e => (Throw e, w2)
    end.

Notation "'let!' x ':=' m 'in' k" := (bind m (fun x => k))
  (at level 10, x pattern, m at level 100, k at level 200).
Notation "m ';;' k" := (bind m (fun _ => k))
  (at level 100, k at level 200, right associativity).

Abbreviation M := (Eff World).

Definition console_log (l : LogLine) : M unit := fun w => (Return tt, add_log l w).

(** [axios.get(url, config)]: the request is issued, then answered by
    the oracle. The [config] (headers) does not influence the model. *)
Definition axios_get (url : string) : M Body :=
  fun w =>
    let n := count_occ string_dec (requests w) url in
    let w' := add_request url w in
    match http w url n with
    | Response d => (Return d, w')
    | Reject r => (Throw (AxiosError r), w')
    end.

Definition Math_random : M Q :=
  fun w => (Return (random w (random_calls w)), next_random w).

(** [await new Promise(resolve => setTimeout(resolve, delay))] *)
Definition sleep (delay : Js.Num) : M unit :=
  fun w => (Return tt, add_timeout delay w).

(** An [async] call without [await]: the call is left to the event
    loop. *)
Definition not_awaited (j : Job) : M unit :=
  fun w => (Return tt, with_pending (pending w ++ [j]) w).

Definition Date_now : M Q := fun w => (Return (now w), w).

(** ** redisClient *)

Module RedisClient.

Definition CACHE_TTL_SECONDS : Z := 30.

Definition live (t : Q) (entry : Stored * Q) : bool := Js.Qlt_bool t (snd entry).

(** [redis.get(key)]: an expired key reads as absent. *)
Definition redis_get (key : string) : M (option Stored) :=
  fun w =>
    let w' := next_redis_cmd w in
    if redis_up w (redis_cmds w) then
      match store w !! key with
      | Some entry => (Return (if live (now w) entry then Some (fst entry) else None), w')
      | None => (Return None, w')
      end
    else (Throw RedisError, w').

(** [redis.set(key, value, 'EX', ttl)]: overwrite, expiring [ttl]
    seconds from now. *)
Definition redis_set_ex (key : string) (value : Stored) (ttl : Z) : M unit :=
  fun w =>
    let w' := next_redis_cmd w in
    if redis_up w (redis_cmds w) then
      (Return tt, with_store (fun s => <[key := (value, (now w + inject_Z (ttl * 1000))%Q)]> s) w')
    else (Throw RedisError, w').

(** [redis.publish(channel, message)] without [await]: when the command
    is not served nothing is delivered and the caller goes on. *)
Definition redis_publish (channel : string) (message : PriceUpdateEvent) : M unit :=
  fun w =>
    let w' := next_redis_cmd w in
    if redis_up w (redis_cmds w) then (Return tt, add_published (channel, message) w')
    else (Return tt, w').

(** The documents are kept typed, so [JSON.parse] of a stored text is
    the document itself and [null] is [None]. *)
Definition getJson (key : string) : M (option Stored) := redis_get key.

(** [ttl = CACHE_TTL_SECONDS] when the caller passes none. *)
Definition setJson (key : string) (data : Stored) (ttl : option Z) : M unit :=
  redis_set_ex key data (default CACHE_TTL_SECONDS ttl).

End RedisClient.
Export RedisClient.

(** ** Built-ins used by the handlers *)

Module Builtin.

(** White space that [parseInt] skips (the ASCII part of it). *)
Definition is_ws (c : ascii) : bool :=
  let n := nat_of_ascii c in
  ((9 <=? n)%nat && (n <=? 13)%nat) || (n =? 32)%nat.

Fixpoint skip_ws (s : string) : string :=
  match s with
  | String c r => if is_ws c then skip_ws r else s
  | EmptyString => s
  end.

Definition digit_of (c : ascii) : option Z :=
  let n := nat_of_ascii c in
  if (48 <=? n)%nat && (n <=? 57)%nat then Some (Z.of_nat (n - 48)) else None.

(** The value of the longest prefix of decimal digits; [acc] is [None]
    until a digit has been read. *)
Fixpoint digits (s : string) (acc : option Z) : option Z :=
  match s with
  | String c r =>
      match digit_of c with
      | Some d => digits r (Some (10 * default 0%Z acc + d)%Z)
      | None => acc
      end
  | EmptyString => acc
  end.

(** [parseInt(s, 10)]; [None] is NaN. Integers are exact. *)
Definition parseInt (s : string) : option Z :=
  match skip_ws s with
  | String "-" r => Z.opp <$> digits r None
  | String "+" r => digits r None
  | r => digits r None
  end.

(** [n.toString()] of an integer. *)
Definition toString (n : Z) : string := DecimalString.NilZero.string_of_int (Z.to_int n).

(** [a + b] on numbers that are integers or NaN. *)
Definition add (a b : option Z) : option Z :=
  match a, b with
  | Some x, Some y => Some (x + y)%Z
  | _, _ => None
  end.

(** [a < n] for an integer-or-NaN [a]. *)
Definition lt (a : option Z) (n : Z) : bool :=
  match a with
  | Some x => (x <? n)%Z
  | None => false
  end.

(** The index [Array.prototype.slice] derives from an argument: NaN is
    0, a negative index counts from the end, and the result is clamped
    to the array. *)
Definition relative_index (len : Z) (k : option Z) : Z :=
  let k := default 0%Z k in
  if (k <? 0)%Z then Z.max (len + k) 0 else Z.min k len.

Definition slice {A} (l : list A) (start end_ : option Z) : list A :=
  let len := Z.of_nat (length l) in
  let k := relative_index len start in
  let final := relative_index len end_ in
  take (Z.to_nat (final - k)) (drop (Z.to_nat k) l).

(** [Array.prototype.sort(cmp)]: stable; [x] goes after [y] exactly when
    [cmp x y > 0]. The comparators of this program are differences of
    a numeric key, hence consistent, and every stable sort agrees. *)
Fixpoint insert_sorted {A} (cmp : A -> A -> Q) (x : A) (l : list A) : list A :=
  match l with
  | [] => [x]
  | y :: l' => if Js.Qlt_bool 0 (cmp x y) then y :: insert_sorted cmp x l' else x :: l
  end.

Definition sort {A} (cmp : A -> A -> Q) (l : list A) : list A :=
  foldr (insert_sorted cmp) [] l.

(** The comparator [(a, b) => key(b) - key(a)] of a descending sort. *)
Definition descending {A} (key : A -> Q) (a b : A) : Q := (key b - key a)%Q.

Definition truthy_string (s : string) : bool := negb (String.eqb s "").

End Builtin.

(** ** apiClient *)

Module ApiClient.

Definition CACHE_TTL : Z := 30.
Definition TOKEN_LIST_KEY : string := "global_token_list".
Definition DEFAULT_RETRIES : nat := 3.

(** [error.response && (error.response.status === 429 ||
    error.response.status >= 500)] *)
Definition isTransientError (error : Js.Error) : bool :=
  match error with
  | AxiosError (Some status) => (status =? 429)%Z || (500 <=? status)%Z
  | _ => false
  end.

(** [error.response?.status] *)
Definition response_status (error : Js.Error) : option Z :=
  match error with
  | AxiosError r => r
  | _ => None
  end.

(** [Math.random() * 500] for the value [r] drawn. *)
Definition jitter (r : Q) : Js.Num := Js.mul (Fin r) (Fin 500).

(** [(2 ** i) * 1000 + Math.random() * 500] for the value [r] drawn. *)
Definition backoff_delay (i : nat) (r : Q) : Js.Num :=
  Js.add (Js.mul (Js.pow_2 i) (Fin 1000)) (jitter r).

(** The loop [for (let i = ...; i < retries; i++)] from index [i], with
    [fuel] iterations left ([retries - i]). Falling off the loop
    returns undefined. *)
Fixpoint fetchWithRetry_loop (url : string) (retries : nat) (i fuel : nat) : M Body :=
  match fuel with
  | O => ret BodyNull
  | S fuel' =>
      try_catch (axios_get url)
        (fun error =>
           if (Z.of_nat i =? Z.of_nat retries - 1)%Z || negb (isTransientError error)
           then throw error
           else
             let! r := Math_random in
             let delay := backoff_delay i r in
             console_log (ApiRetry url (response_status error) delay (S i) retries);;
             sleep delay;;
             fetchWithRetry_loop url retries (S i) fuel')
  end.

Definition fetchWithRetry (url : string) (retries : nat) : M Body :=
  fetchWithRetry_loop url retries 0 retries.

(** [data.pairs || []] *)
Definition fetchDexScreener (symbol : string) : M (list Pair) :=
  let url := "https://api.dexscreener.com/latest/dex/search?q=" +:+ symbol in
  let! data := fetchWithRetry url DEFAULT_RETRIES in
  match data with
  | BodyNull => throw (TypeError "Cannot read properties of undefined (reading 'pairs')")
  | BodyObject (Some pairs) _ _ => ret pairs
  | BodyObject None _ _ => ret []
  | BodyArray _ => ret []
  end.

(** [data || []] *)
Definition fetchJupiterPrice (symbol : string) : M Body :=
  let url := "https://lite-api.jup.ag/tokens/v2/search?query=" +:+ symbol in
  let! data := fetchWithRetry url DEFAULT_RETRIES in
  match data with
  | BodyNull => ret (BodyArray [])
  | _ => ret data
  end.

(** The bindings of the module scope; reading any other identifier
    raises a ReferenceError. *)
Definition declared : list string :=
  ["axios"; "getJson"; "setJson"; "redis"; "GECKO_API_KEY"; "CACHE_TTL"; "TOKEN_LIST_KEY";
   "fetchWithRetry"; "fetchDexScreener"; "fetchJupiterPrice"; "fetchGeckoTerminal";
   "mergeAndCleanTokenData"; "getTokenList"].

Definition read_identifier {S} (name : string) (value : option string) : Eff S (option string) :=
  if bool_decide (name ∈ declared) then ret value else throw (ReferenceError name).

(** A string from the environment is truthy when it is set and not
    empty. *)
Definition truthy_env (v : option string) : bool :=
  match v with
  | Some s => Builtin.truthy_string s
  | None => false
  end.

Record GeckoResult := mkGecko { pools : list string; related : list string }.

(** [GECKO_API_KEY] is [process.env.GECKOTERMINAL_API_KEY], read when
    the module is loaded. *)
Definition fetchGeckoTerminal (GECKO_API_KEY : option string) (symbol : string) : M GeckoResult :=
  let url := "https://api.geckoterminal.com/api/v2/search/pools?query=" +:+ symbol in
  let! invalid :=
    (if negb (truthy_env GECKO_API_KEY) then ret true
     else
       let! other := read_identifier "GCHO_API_KEY" None in
       ret (bool_decide (other = Some "YOUR_GECKOTERMINAL_API_KEY"))) in
  if (invalid : bool) then
    throw (PlainError "GeckoTerminal API Key is missing or invalid in the .env file.")
  else
    let! data := fetchWithRetry url DEFAULT_RETRIES in
    match data with
    | BodyObject _ d i => ret (mkGecko (default [] d) (default [] i))
    | BodyArray _ => ret (mkGecko [] [])
    | BodyNull => throw (TypeError "Cannot read properties of undefined (reading 'data')")
    end.

(** The merged list is a literal; the argument is not read. *)
Definition mergeAndCleanTokenData (rawPairs : list RawSourceResult) : list TokenRecord :=
  [ mkToken "SOL" 150.25%Q 1500000000%Q 0.5%Q 7.2%Q;
    mkToken "JUP" 0.85%Q 50000000%Q (-1.2)%Q 3.1%Q;
    mkToken "BONK" 0.000025%Q 120000000%Q 2.1%Q 15.5%Q ].

(** [req.query]: each parameter is a string when present. *)
Record Query := mkQuery {
  q_limit : option string;
  q_sortBy : option string;
  q_filterBy : option string;
  q_nextCursor : option string
}.

Inductive ResBody :=
| JsonView (v : QueryResultView)
| JsonSpread (doc : Stored)       (* [{...doc, cached: true}] of a document that is no view *)
| JsonError (error : string).

Record Res := mkRes { status : nat; body : ResBody }.

(** [r[sortBy] || 0] as a number. The four numeric properties give
    their value. For any other name the operand is undefined (0), or a
    string or an inherited function, whose difference is NaN, which
    [sort] reads as 0: in both cases all records compare equal, as with
    key 0. (Symbols are taken not to be numeric literals.) *)
Definition sort_key (sortBy : string) (r : TokenRecord) : Q :=
  if String.eqb sortBy "price" then price r
  else if String.eqb sortBy "volume24h" then volume24h r
  else if String.eqb sortBy "priceChange1h" then priceChange1h r
  else if String.eqb sortBy "priceChange24h" then priceChange24h r
  else 0%Q.

(** [(a, b) => (b[sortBy] || 0) - (a[sortBy] || 0)] *)
Definition by_desc (sortBy : string) : TokenRecord -> TokenRecord -> Q :=
  Builtin.descending (sort_key sortBy).

Definition set_cached (v : QueryResultView) : QueryResultView :=
  mkView (data v) (pagination v) true (cacheTime v).

Definition spread_cached (doc : Stored) : ResBody :=
  match doc with
  | SView v => JsonView (set_cached v)
  | _ => JsonSpread doc
  end.

Definition cache_key (limit sortBy filterBy : string) : string :=
  TOKEN_LIST_KEY +:+ "_" +:+ limit +:+ "_" +:+ sortBy +:+ "_" +:+ filterBy.

Definition UNAVAILABLE : string := "Token list is currently being aggregated. Try again shortly.".

Definition getTokenList (query : Query) : M Res :=
  let limit := default "20" (q_limit query) in
  let sortBy := default "volume24h" (q_sortBy query) in
  let filterBy := default "24h" (q_filterBy query) in
  let nextCursor := q_nextCursor query in
  let cacheKey := cache_key limit sortBy filterBy in
  try_catch
    (let! cachedList := getJson cacheKey in
     match cachedList with
     | Some doc =>
         console_log (CacheHit sortBy);;
         ret (mkRes 200 (spread_cached doc))
     | None =>
         let! fullList := getJson TOKEN_LIST_KEY in
         match fullList with
         | None | Some (SCatalog []) => ret (mkRes 503 (JsonError UNAVAILABLE))
         | Some (SCatalog fullList) =>
             let fullList := Builtin.sort (by_desc sortBy) fullList in
             let startIndex :=
               if truthy_env nextCursor then Builtin.parseInt (default "" nextCursor)
               else Some 0%Z in
             let limitInt := Builtin.parseInt limit in
             let upto := Builtin.add startIndex limitInt in
             let paginatedList := Builtin.slice fullList startIndex upto in
             let next :=
               if Builtin.lt upto (Z.of_nat (length fullList))
               then Builtin.toString <$> upto else None in
             let! t := Date_now in
             let responseBody := mkView paginatedList (mkPagination limitInt next) false t in
             setJson cacheKey (SView responseBody) (Some CACHE_TTL);;
             ret (mkRes 200 (JsonView responseBody))
         | Some _ => throw (TypeError "fullList.sort is not a function")
         end
     end)
    (fun error =>
       console_log (ListError error);;
       ret (mkRes 500 (JsonError "Internal server error during list retrieval."))).

End ApiClient.
Export ApiClient.

(** ** scheduler *)

Module Scheduler.

(** The schedules when the environment sets none. *)
Definition AGGREGATION_CRON : string := "*/5 * * * *".
Definition TICKER_CRON : string := "*/5 * * * * *".
Definition REALTIME_CHANNEL : string := "token_price_updates".
Definition MOCK_TOP_TOKENS : list string := ["SOL"; "JUP"; "BONK"; "WEN"].

(** Seconds between two firings of the default schedules
    ['*/5 * * * *'] and ['*/5 * * * * *']. *)
Definition AGGREGATION_PERIOD : Z := 5 * 60.
Definition TICKER_PERIOD : Z := 5.

Definition TICKER_KEY : string := "ticker:SOL".
Definition TICKER_TTL : Z := 60.
(** The literal [0.0005]: the double nearest to it. *)
Definition THRESHOLD : Js.Num := Js.round 0.0005%Q.

(** [status === 'fulfilled' ? value : null] *)
Definition fulfilled_value {A} (c : Js.Completion A) : option A :=
  match c with
  | Return a => Some a
  | Throw _ => None
  end.

Definition fetchSymbol (symbol : string) : M RawSourceResult :=
  let! dex := settled (fetchDexScreener symbol) in
  let! jup := settled (fetchJupiterPrice symbol) in
  ret (mkRaw symbol (fulfilled_value dex) (fulfilled_value jup)).

(** [await Promise.all(symbols.map(f))] for an [f] that never rejects. *)
Fixpoint for_each {A B} (f : A -> M B) (l : list A) : M (list B) :=
  match l with
  | [] => ret []
  | x :: l' =>
      let! y := f x in
      let! ys := for_each f l' in
      ret (y :: ys)
  end.

(** [r.dexScreener || r.jupiterPrice]: an array or object is truthy,
    null is not. *)
Definition has_source (r : RawSourceResult) : bool :=
  match dexScreener r, jupiterPrice r with
  | None, None => false
  | _, _ => true
  end.

(** The [try] statement of [runFullAggregation]: all of the function
    from its first [await] on. *)
Definition aggregation_steps : M unit :=
  try_catch
    (let! results := for_each fetchSymbol MOCK_TOP_TOKENS in
     let rawResults := List.filter has_source results in
     let aggregatedList := mergeAndCleanTokenData rawResults in
     setJson TOKEN_LIST_KEY (SCatalog aggregatedList) None;;
     console_log (SchedulerUpdated (length aggregatedList) TOKEN_LIST_KEY))
    (fun error => console_log (SchedulerFailed error)).

Definition runFullAggregation : M unit :=
  console_log SchedulerStarting;;
  aggregation_steps.

(** [(b.volume?.h24 || 0)] *)
Definition volume_key (p : Pair) : Q :=
  match volume p with
  | Some v => default 0%Q (h24 v)
  | None => 0%Q
  end.

(** [(a, b) => (b.volume?.h24 || 0) - (a.volume?.h24 || 0)] *)
Definition by_volume_desc : Pair -> Pair -> Q := Builtin.descending volume_key.

(** [solOld.price] as an operand of [-] and [/]: null counts as 0, a
    missing property as NaN. *)
Definition old_price (solOld : Stored) : Js.Num :=
  match solOld with
  | STicker (Some q) => Fin q
  | STicker None => Fin 0
  | _ => NaN
  end.

(** [Math.abs(newPrice - old) / old > 0.0005] *)
Definition moved (newPrice old : Js.Num) : bool :=
  Js.gt (Js.div (Js.abs (Js.sub newPrice old)) old) THRESHOLD.

(** No [try]: a failure of the fetch, of a Redis command or of the
    property reads leaves the function as a rejection. The Redis read
    of [Promise.all] is answered before the backoff timers of the fetch
    run, so it goes first. *)
Definition runRealtimeTicker : M unit :=
  let! both := promise_all2 (getJson TICKER_KEY) (fetchDexScreener "SOL") in
  let solOld := fst both in
  let solDex := snd both in
  (* [solDex.length > 0]: the sorted array is empty exactly when [solDex] is *)
  match Builtin.sort by_volume_desc solDex with
  | [] => ret tt
  | latestPair :: _ =>
      let newPrice := priceUsd latestPair in
      (match solOld with
       | Some old =>
           if moved newPrice (old_price old) then
             match volume latestPair with
             | None => throw (TypeError "Cannot read properties of undefined (reading 'h24')")
             | Some v =>
                 let! t := Date_now in
                 let update := mkUpdate "SOL" (Js.to_json newPrice) (h24 v) t in
                 redis_publish REALTIME_CHANNEL update;;
                 console_log (TickerPublished newPrice)
             end
           else ret tt
       | None => ret tt
       end);;
      setJson TICKER_KEY (STicker (Js.to_json newPrice)) (Some TICKER_TTL)
  end.

(** A function handed to [cron.schedule] with its expression. *)
Record Scheduled := mkScheduled { expression : string; task : M unit }.

(** [startScheduler]: both jobs are registered as they are, then
    [runFullAggregation()] is called without [await]: the call runs up
    to its first [await], and [startScheduler] returns while the rest
    of it is pending. The result lists the registrations. *)
Definition startScheduler : M (list Scheduled) :=
  console_log (CronScheduled AGGREGATION_CRON);;
  console_log (CronScheduled TICKER_CRON);;
  console_log SchedulerStarting;;
  not_awaited SeedingRun;;
  ret [ mkScheduled AGGREGATION_CRON runFullAggregation;
        mkScheduled TICKER_CRON runRealtimeTicker ].

(** What is left of a call that was not awaited. *)
Definition resume (j : Job) : M unit :=
  match j with
  | SeedingRun => aggregation_steps
  end.

Fixpoint resume_all (js : list Job) : M unit :=
  match js with
  | [] => ret tt
  | j :: js' => resume j;; resume_all js'
  end.

(** The event loop completes the pending calls, oldest first. *)
Definition event_loop : M unit :=
  fun w => resume_all (pending w) (with_pending [] w).

End Scheduler.
Export Scheduler.

(** ** websocket *)

Module Websocket.

(** A parsed JSON text. *)
Inductive Json :=
| JNull
| JBool (b : bool)
| JNumber (q : Q)
| JString (s : string)
| JArray (items : list Json)
| JObject (members : list (string * Json)).

Inductive WsLog :=
| Broadcasted (symbol : option Json)        (* console.log *)
| ParseFailed (e : Js.Error)                (* console.error *)
| ClientConnected (socket : string)
| ClientSubscribed (socket token : string)
| ClientDisconnected (socket : string).

Definition is_error (l : WsLog) : bool :=
  match l with
  | ParseFailed _ => true
  | _ => false
  end.

(** The Socket.io server: the connected sockets, their rooms, every
    event delivered to a socket so far, and the console. *)
Record Gateway := mkGateway {
  clients : list string;
  rooms : list (string * string);
  emitted : list (string * string * Json);
  ws_console : list WsLog
}.

Definition ws_log (l : WsLog) : Eff Gateway unit :=
  fun g => (Return tt, mkGateway (clients g) (rooms g) (emitted g) (ws_console g ++ [l])).

(** [io.emit(event, data)]: one delivery per connected socket. *)
Definition io_emit (event : string) (payload : Json) : Eff Gateway unit :=
  fun g =>
    (Return tt,
     mkGateway (clients g) (rooms g)
               (emitted g ++ List.map (fun c => (c, event, payload)) (clients g))
               (ws_console g)).

(** [data.symbol]: reading a property of null throws; a value that is
    no object has no such property. *)
Definition get_symbol (payload : Json) : Eff Gateway (option Json) :=
  match payload with
  | JNull => throw (TypeError "Cannot read properties of null (reading 'symbol')")
  | JObject members => ret (snd <$> List.find (fun m => String.eqb (fst m) "symbol") members)
  | _ => ret None
  end.

Definition upper (c : ascii) : ascii :=
  let n := nat_of_ascii c in
  if (97 <=? n)%nat && (n <=? 122)%nat then ascii_of_nat (n - 32) else c.

Fixpoint toUpperCase (s : string) : string :=
  match s with
  | String c r => String (upper c) (toUpperCase r)
  | EmptyString => EmptyString
  end.

Section Handlers.

(** [JSON.parse]; [None] when the text is not JSON (a SyntaxError). *)
Variable JSON_parse : string -> option Json.

Definition parse (message : string) : Eff Gateway Json :=
  match JSON_parse message with
  | Some v => ret v
  | None => throw SyntaxError
  end.

(** [subscriber.on('message', (channel, message) => ...)] *)
Definition on_message (channel message : string) : Eff Gateway unit :=
  if String.eqb channel REALTIME_CHANNEL then
    try_catch
      (let! payload := parse message in
       io_emit "priceUpdate" payload;;
       let! s := get_symbol payload in
       ws_log (Broadcasted s))
      (fun e => ws_log (ParseFailed e))
  else ret tt.

End Handlers.

(** [io.on('connection', socket => ...)] and the two socket handlers. *)
Definition on_connection (socket : string) : Eff Gateway unit :=
  fun g =>
    (Return tt,
     mkGateway (clients g ++ [socket]) (rooms g) (emitted g)
               (ws_console g ++ [ClientConnected socket])).

Definition on_subscribe (socket token : string) : Eff Gateway unit :=
  fun g =>
    (Return tt,
     mkGateway (clients g) (rooms g ++ [(socket, toUpperCase token)]) (emitted g)
               (ws_console g ++ [ClientSubscribed socket (toUpperCase token)])).

Definition on_disconnect (socket : string) : Eff Gateway unit :=
  fun g =>
    (Return tt,
     mkGateway (List.filter (fun c => negb (String.eqb c socket)) (clients g))
               (List.filter (fun r => negb (String.eqb (fst r) socket)) (rooms g))
               (emitted g)
               (ws_console g ++ [ClientDisconnected socket])).

End Websocket.
Export Websocket.

(** ** Observing a run *)

(** How [m] completes from [w], and the world it leaves. *)
Definition completion {S A} (m : Eff S A) (w : S) : Js.Completion A := fst (m w).
Definition after {S A} (m : Eff S A) (w : S) : S := snd (m w).

(** What a reader of [key] gets at instant [t] when Redis answers. *)
Definition read_at (t : Q) (key : string) (w : World) : option Stored :=
  match store w !! key with
  | Some entry => if RedisClient.live t entry then Some (fst entry) else None
  | None => None
  end.

(** A number that is at least [a]: finite, or [+Infinity]. *)
Definition at_least (a : Q) (x : Js.Num) : Prop :=
  match x with
  | Fin q => (a <= q)%Q
  | Infinity false => True
  | _ => False
  end.

(** The console lines written with [console.error]. *)
Definition error_lines (w : World) : list LogLine :=
  List.filter (fun l => match level l with ERROR => true | _ => false end) (console w).

(** The world after one failed attempt that is retried: the request,
    the draw, the warning and the timer. *)
Definition retried (url : string) (retries i : nat) (e : Js.Error) (w : World) : World :=
  let d := backoff_delay i (random w (random_calls w)) in
  add_timeout d
    (add_log (ApiRetry url (response_status e) d (S i) retries)
       (next_random (add_request url w))).

(** The parts of the world a fetch never touches. *)
Definition fetch_frame (w w' : World) : Prop :=
  store w' = store w /\ redis_up w' = redis_up w /\ redis_cmds w' = redis_cmds w /\
  http w' = http w /\ random w' = random w /\ published w' = published w.

(** The delays armed when every attempt from index [i] on fails
    transiently, [n] of them, for the draws of [w]. *)
Definition delays_from (w : World) (i n : nat) : list Js.Num :=
  List.map (fun k => backoff_delay (i + k) (random w (random_calls w + k))) (seq 0 n).

(** The status is 429 or at least 500. *)
Definition transient_status (s : Z) : Prop := (s = 429 \/ 500 <= s)%Z.

(** The key a query is cached under. *)
Definition key_of (query : Query) : string :=
  cache_key (default "20" (q_limit query)) (default "volume24h" (q_sortBy query))
            (default "24h" (q_filterBy query)).

(** The view the handler computes on a cache miss, from the catalog it
    read and the instant [t]: steps 3 and 4 of [getTokenList]. *)
Definition page_view (query : Query) (catalog : list TokenRecord) (t : Q) : QueryResultView :=
  let limit := default "20" (q_limit query) in
  let sorted := Builtin.sort (by_desc (default "volume24h" (q_sortBy query))) catalog in
  let startIndex :=
    if truthy_env (q_nextCursor query) then Builtin.parseInt (default "" (q_nextCursor query))
    else Some 0%Z in
  let limitInt := Builtin.parseInt limit in
  let upto := Builtin.add startIndex limitInt in
  mkView (Builtin.slice sorted startIndex upto)
         (mkPagination limitInt
            (if Builtin.lt upto (Z.of_nat (length sorted))
             then Builtin.toString <$> upto else None))
         false t.

(** The ids of a catalog, in order. *)
Definition ids (catalog : list TokenRecord) : list string := List.map id catalog.

(** The records of a catalog for one symbol. *)
Definition records_for (symbol : string) (catalog : list TokenRecord) : list TokenRecord :=
  List.filter (fun r => String.eqb (id r) symbol) catalog.

(** ** Sample inputs *)

(** A world with an empty key space at instant 0, where Redis serves
    every command, the upstream answers by [h] and every draw of
    [Math.random] is [r]. *)
Definition fresh_world (h : string -> nat -> AxiosOutcome) (r : Q) : World :=
  mkWorld ∅ 0%Q (fun _ => true) 0 h [] (fun _ => r) 0 [] [] [] [].

(** A world like [fresh_world] where Redis serves no command. *)
Definition redis_down_world (h : string -> nat -> AxiosOutcome) (r : Q) : World :=
  mkWorld ∅ 0%Q (fun _ => false) 0 h [] (fun _ => r) 0 [] [] [] [].

(** An upstream that answers every request with status [s]. *)
Definition always_status (s : Z) : string -> nat -> AxiosOutcome :=
  fun _ _ => Reject (Some s).

(** One raw result, for WEN, with its DexScreener source present. *)
Definition wen_only : list RawSourceResult :=
  [ mkRaw "WEN" (Some [mkPair (Js.round 0.0001%Q) (Some (mkVolume (Some 5000%Q)))]) None ].

(** The key space after a full aggregation run, started from an empty
    one while every upstream request is answered 404. *)
Definition seeded_world : World :=
  after runFullAggregation (fresh_world (always_status 404) (1 # 4)).

(** The first page of size 1, and the request for the page after it. *)
Definition page1 : Query := mkQuery (Some "1") None None (Some "0").
Definition page2 : Query := mkQuery (Some "1") None None (Some "1").

(** A SOL pair quoted at the decimal [p] with 24h volume [vol];
    [parseFloat] reads the double nearest to [p]. *)
Definition sol_pair (p vol : Q) : Pair := mkPair (Js.round p) (Some (mkVolume (Some vol))).

(** An upstream whose first reply quotes SOL at 100.10 on its busiest
    pool, and every later reply at 100.105. *)
Definition moving_upstream : string -> nat -> AxiosOutcome :=
  fun _ n =>
    match n with
    | O => Response (BodyObject (Some [sol_pair 99%Q 1000%Q; sol_pair 100.10%Q 900000000%Q])
                                None None)
    | _ => Response (BodyObject (Some [sol_pair 100.105%Q 900000000%Q; sol_pair 98%Q 2000%Q])
                                None None)
    end.

(** Instant 0, the last ticker state 100.00 still live. *)
Definition ticker_world : World :=
  mkWorld {[ TICKER_KEY := (STicker (Some 100.00%Q), 60000%Q) ]} 0%Q (fun _ => true) 0
          moving_upstream [] (fun _ => (1 # 4)%Q) 0 [] [] [] [].

(** The same world one ticker period later. *)
Definition next_tick (w : World) : World :=
  with_now (now w + inject_Z (TICKER_PERIOD * 1000))%Q w.

(** A ticker state 100.00 and an upstream whose only pair has moved
    but carries no [volume] object. *)
Definition no_volume_world : World :=
  mkWorld {[ TICKER_KEY := (STicker (Some 100.00%Q), 60000%Q) ]} 0%Q (fun _ => true) 0
          (fun _ _ => Response (BodyObject (Some [mkPair (Js.round 100.10%Q) None]) None None))
          [] (fun _ => (1 # 4)%Q) 0 [] [] [] [].

(** ** Further observers and inputs *)

(** A console line written with [console.warn]. *)
Definition is_warning (l : LogLine) : bool :=
  match level l with WARN => true | _ => false end.

(** An upstream that answers 503 to the first [k] requests for a url
    and then replies with [d]. *)
Definition flaky_upstream (k : nat) (d : Body) : string -> nat -> AxiosOutcome :=
  fun _ n => if (n <? k)%nat then Reject (Some 503%Z) else Response d.

(** The offset a query starts from:
    [nextCursor ? parseInt(nextCursor, 10) : 0]. *)
Definition start_of (query : Query) : option Z :=
  if truthy_env (q_nextCursor query) then Builtin.parseInt (default "" (q_nextCursor query))
  else Some 0%Z.

(** The catalog sorted as the handler sorts it for a query. *)
Definition sorted_for (query : Query) (catalog : list TokenRecord) : list TokenRecord :=
  Builtin.sort (by_desc (default "volume24h" (q_sortBy query))) catalog.

(** The last line of the console. *)
Definition last_line (w : World) : option LogLine := List.last (Some <$> console w) None.

(** The answer to a failure inside the handler. *)
Definition INTERNAL : string := "Internal server error during list retrieval.".

(** What a run of the handler may change: the entry under [key], the
    console and the count of Redis commands. *)
Definition handler_frame (key : string) (w w' : World) : Prop :=
  (forall k, k <> key -> store w' !! k = store w !! k) /\
  published w' = published w /\ requests w' = requests w /\
  timeouts w' = timeouts w /\ now w' = now w.

(** A world like [fresh_world] holding the catalog of the merge engine,
    live until instant 30000. *)
Definition catalog_world : World :=
  mkWorld {[ TOKEN_LIST_KEY := (SCatalog (mergeAndCleanTokenData []), 30000%Q) ]} 0%Q
          (fun _ => true) 0 (always_status 404) [] (fun _ => (1 # 4)%Q) 0 [] [] [] [].

(** The same, where Redis serves the two reads of a request but not
    the write that follows. *)
Definition write_down_world : World :=
  mkWorld {[ TOKEN_LIST_KEY := (SCatalog (mergeAndCleanTokenData []), 30000%Q) ]} 0%Q
          (fun n => (n <? 2)%nat) 0 (always_status 404) [] (fun _ => (1 # 4)%Q) 0 [] [] [] [].

(** The request with no parameter at all. *)
Definition plain_query : Query := mkQuery None None None None.

(** The request that follows up on [query] with cursor [c]. *)
Definition with_cursor (c : option string) (query : Query) : Query :=
  mkQuery (q_limit query) (q_sortBy query) (q_filterBy query) c.

(** The same request with another [filterBy]. *)
Definition with_filter (f : option string) (query : Query) : Query :=
  mkQuery (q_limit query) (q_sortBy query) f (q_nextCursor query).

(** The limit of a query as the handler parses it. *)
Definition limit_of (query : Query) : option Z :=
  Builtin.parseInt (default "20" (q_limit query)).

(** The part of [runRealtimeTicker] after the [await], for the state
    read and the pairs fetched. *)
Definition ticker_body (solOld : option Stored) (solDex : list Pair) : M unit :=
  match Builtin.sort by_volume_desc solDex with
  | [] => ret tt
  | latestPair :: _ =>
      let newPrice := priceUsd latestPair in
      (match solOld with
       | Some old =>
           if moved newPrice (old_price old) then
             match volume latestPair with
             | None => throw (TypeError "Cannot read properties of undefined (reading 'h24')")
             | Some v =>
                 let! t := Date_now in
                 let update := mkUpdate "SOL" (Js.to_json newPrice) (h24 v) t in
                 redis_publish REALTIME_CHANNEL update;;
                 console_log (TickerPublished newPrice)
             end
           else ret tt
       | None => ret tt
       end);;
      setJson TICKER_KEY (STicker (Js.to_json newPrice)) (Some TICKER_TTL)
  end.

(** An upstream whose reply lists no pair. *)
Definition no_pairs_upstream : string -> nat -> AxiosOutcome :=
  fun _ _ => Response (BodyObject (Some []) None None).

(** An upstream quoting SOL at an unparsable price. *)
Definition nan_upstream : string -> nat -> AxiosOutcome :=
  fun _ _ => Response (BodyObject (Some [mkPair NaN (Some (mkVolume (Some 5%Q)))]) None None).

(** Instant 0, the last ticker state a null price. *)
Definition null_state_world : World :=
  mkWorld {[ TICKER_KEY := (STicker None, 60000%Q) ]} 0%Q (fun _ => true) 0
          moving_upstream [] (fun _ => (1 # 4)%Q) 0 [] [] [] [].

(** The gateway after the subscriptions [subs] (socket, token), in
    order. *)
Definition subscribe_all (subs : list (string * string)) (g : Gateway) : Gateway :=
  foldl (fun g s => after (on_subscribe (fst s) (snd s)) g) g subs.

(** A parser that reads the texts [null] and [42], and nothing else. *)
Definition sample_parse (message : string) : option Json :=
  if String.eqb message "null" then Some JNull
  else if String.eqb message "42" then Some (JNumber 42%Q)
  else None.

(** Two sockets connected, one of them in the room BONK. *)
Definition two_clients : Gateway :=
  mkGateway ["a"; "b"] [("a", "BONK")] [] [].

(** The total of a list of delays, when all of them are finite. *)
Fixpoint total_delay (delays : list Js.Num) : option Q :=
  match delays with
  | [] => Some 0%Q
  | Fin d :: l => Qplus d <$> total_delay l
  | _ :: _ => None
  end.

(** The ASCII letters, each lower-case letter with its capital. *)
Definition letters : list (ascii * ascii) :=
  zip (list_ascii_of_string "abcdefghijklmnopqrstuvwxyz")
      (list_ascii_of_string "ABCDEFGHIJKLMNOPQRSTUVWXYZ").

(** The same character, or the two cases of one letter. *)
Definition same_letter (a b : ascii) : bool :=
  Ascii.eqb a b ||
  existsb (fun p => (Ascii.eqb a (fst p) && Ascii.eqb b (snd p))
                    || (Ascii.eqb a (snd p) && Ascii.eqb b (fst p))) letters.

(** Two tokens that differ at most in the case of their letters. *)
Fixpoint eq_ignoring_case (s t : string) : bool :=
  match s, t with
  | EmptyString, EmptyString => true
  | String a s', String b t' => same_letter a b && eq_ignoring_case s' t'
  | _, _ => false
  end.

(** * Properties *)

(** ** Doubles

    Rounding agrees with the doubles of the language on samples, is
    monotone, and leaves a value of 53 bits as it is. *)

Example round_samples :
  round 1000 = Fin 1000 /\ round 0.5 = Fin (1 # 2) /\
  round (1 - (1 # 2 ^ 53)) = Fin (1 - (1 # 2 ^ 53))%Q /\
  round (1 - (1 # 2 ^ 54)) = Fin 1 /\
  round ((1 - (1 # 2 ^ 53)) * 500) = Fin (500 - (1 # 2 ^ 44)) /\
  round (1000 + (500 - (1 # 2 ^ 44))) = Fin 1500 /\
  round (0.1) = Fin (3602879701896397 # 36028797018963968) /\
  round (inject_Z (2 ^ 1024)) = Infinity false /\
  round (inject_Z (2 ^ 1024 - 2 ^ 970)) = Infinity false /\
  round (inject_Z (2 ^ 1024 - 2 ^ 970 - 1)) = Fin (inject_Z (2 ^ 1024 - 2 ^ 971)) /\
  round (1 # 2 ^ 1075) = Fin 0 /\
  round (3 # 2 ^ 1075) = Fin (1 # 2 ^ 1073) /\
  round (- (1 # 3)) = Fin (- (6004799503160661 # 18014398509481984)).
Proof. repeat split; vm_compute; reflexivity. Qed.

(** The clock under a timer: whole milliseconds, and 1 ms for a delay
    out of range. *)
Example timer_ms_samples :
  timer_ms (Fin 1125.5) = 1125%Q /\ timer_ms (Fin 0.5) = 1%Q /\
  timer_ms (Fin 2147483648) = 1%Q /\ timer_ms (Infinity false) = 1%Q /\ timer_ms NaN = 1%Q.
Proof. repeat split. Qed.

Section Rounding.
Open Scope Q_scope.

Lemma pow2_pos (e : Z) : 0 < pow2 e.
Proof. apply Qpower_0_lt. reflexivity. Qed.

Lemma pow2_add (a b : Z) : pow2 (a + b) == pow2 a * pow2 b.
Proof. apply Qpower_plus. discriminate. Qed.

Lemma pow2_le (a b : Z) : (a <= b)%Z -> pow2 a <= pow2 b.
Proof. intros H. apply Qpower_le_compat_l; [exact H | discriminate]. Qed.

Lemma pow2_lt_inv (a b : Z) : pow2 a < pow2 b -> (a < b)%Z.
Proof. intros H. apply (Qpower_lt_compat_l_inv 2); [exact H | reflexivity]. Qed.

Lemma pow2_Z (n : Z) : (0 <= n)%Z -> pow2 n == inject_Z (2 ^ n).
Proof. intros H. unfold pow2. now rewrite Zpower_Qpower. Qed.

Lemma le_pow2_Z (q : Q) (n : Z) : (0 <= n)%Z -> q <= inject_Z (2 ^ n) -> q <= pow2 n.
Proof. intros Hn H. now rewrite pow2_Z. Qed.

Lemma pow2_Z_le (q : Q) (n : Z) : (0 <= n)%Z -> inject_Z (2 ^ n) <= q -> pow2 n <= q.
Proof. intros Hn H. now rewrite pow2_Z. Qed.

Lemma pow2_sub (a b : Z) : pow2 (a - b) == pow2 a / pow2 b.
Proof.
  unfold Z.sub. rewrite pow2_add. unfold pow2 at 2. rewrite Qpower_opp. reflexivity.
Qed.

Lemma div_pow2_le (x : Q) (k e : Z) : x <= pow2 k -> x / pow2 e <= pow2 (k - e).
Proof.
  intros H. rewrite pow2_sub. apply Qmult_le_compat_r; [exact H|].
  apply Qlt_le_weak, Qinv_lt_0_compat, pow2_pos.
Qed.

Lemma div_pow2_ge (x : Q) (k e : Z) : pow2 k <= x -> pow2 (k - e) <= x / pow2 e.
Proof.
  intros H. rewrite pow2_sub. apply Qmult_le_compat_r; [exact H|].
  apply Qlt_le_weak, Qinv_lt_0_compat, pow2_pos.
Qed.

Lemma Zfrac_le (A B C D : Z) :
  (0 < B)%Z -> (0 < D)%Z -> (A * D <= C * B)%Z ->
  inject_Z A / inject_Z B <= inject_Z C / inject_Z D.
Proof.
  intros HB HD H.
  assert (HB' : 0 < inject_Z B) by (now rewrite (Zlt_Qlt 0 B) in HB).
  assert (HD' : 0 < inject_Z D) by (now rewrite (Zlt_Qlt 0 D) in HD).
  apply Qle_shift_div_l; [exact HD'|].
  setoid_replace (inject_Z A / inject_Z B * inject_Z D)
    with (inject_Z (A * D) / inject_Z B) using relation Qeq.
  - apply Qle_shift_div_r; [exact HB'|].
    rewrite <- inject_Z_mult, <- Zle_Qle. exact H.
  - rewrite inject_Z_mult. field. intros E. rewrite E in HB'. discriminate.
Qed.

Lemma Zfrac_lt (A B C D : Z) :
  (0 < B)%Z -> (0 < D)%Z -> (A * D < C * B)%Z ->
  inject_Z A / inject_Z B < inject_Z C / inject_Z D.
Proof.
  intros HB HD H.
  assert (HB' : 0 < inject_Z B) by (now rewrite (Zlt_Qlt 0 B) in HB).
  assert (HD' : 0 < inject_Z D) by (now rewrite (Zlt_Qlt 0 D) in HD).
  apply Qlt_shift_div_l; [exact HD'|].
  setoid_replace (inject_Z A / inject_Z B * inject_Z D)
    with (inject_Z (A * D) / inject_Z B) using relation Qeq.
  - apply Qlt_shift_div_r; [exact HB'|].
    rewrite <- inject_Z_mult, <- Zlt_Qlt. exact H.
  - rewrite inject_Z_mult. field. intros E. rewrite E in HB'. discriminate.
Qed.

Lemma ilog2_spec (q : Q) : 0 < q -> pow2 (ilog2 q) <= q /\ q < pow2 (ilog2 q + 1).
Proof.
  intros Hq. destruct q as [n d]. unfold ilog2. simpl Qnum. simpl Qden.
  assert (Hn : (0 < n)%Z) by (unfold Qlt in Hq; simpl in Hq; lia).
  set (a := Z.log2 n). set (b := Z.log2 (Z.pos d)).
  destruct (Z.log2_spec n Hn) as [Ha1 Ha2]. fold a in Ha1, Ha2.
  destruct (Z.log2_spec (Z.pos d) eq_refl) as [Hb1 Hb2]. fold b in Hb1, Hb2.
  assert (Ha0 : (0 <= a)%Z) by apply Z.log2_nonneg.
  assert (Hb0 : (0 <= b)%Z) by apply Z.log2_nonneg.
  assert (Hd : n # d == inject_Z n / inject_Z (Z.pos d)) by apply Qmake_Qdiv.
  assert (Hpa : (0 < 2 ^ a)%Z) by (apply Z.pow_pos_nonneg; lia).
  assert (Hpb : (0 < 2 ^ b)%Z) by (apply Z.pow_pos_nonneg; lia).
  assert (Hsa : (2 ^ (a + 1) = 2 * 2 ^ a)%Z) by (rewrite Z.pow_add_r by lia; lia).
  assert (Hsb : (2 ^ (b + 1) = 2 * 2 ^ b)%Z) by (rewrite Z.pow_add_r by lia; lia).
  unfold Z.succ in Ha2, Hb2. rewrite Hsa in Ha2. rewrite Hsb in Hb2.
  assert (Hlo : pow2 (a - b - 1) <= n # d).
  { rewrite Hd. replace (a - b - 1)%Z with (a - (b + 1))%Z by lia.
    rewrite pow2_sub, !pow2_Z by lia.
    apply Zfrac_le; [lia | lia |]. rewrite Hsb. nia. }
  assert (Hhi : n # d < pow2 (a - b + 1)).
  { rewrite Hd. replace (a - b + 1)%Z with (a + 1 - b)%Z by lia.
    rewrite pow2_sub, !pow2_Z by lia.
    apply Zfrac_lt; [lia | lia |]. rewrite Hsa. nia. }
  destruct (Qle_bool (pow2 (a - b)) (n # d)) eqn:E.
  - apply Qle_bool_iff in E. split; assumption.
  - split; [exact Hlo|].
    replace (a - b - 1 + 1)%Z with (a - b)%Z by lia.
    apply Qnot_le_lt. intros H. apply Qle_bool_iff in H. congruence.
Qed.

Lemma ilog2_unique (q : Q) (k : Z) : pow2 k <= q -> q < pow2 (k + 1) -> ilog2 q = k.
Proof.
  intros H1 H2.
  assert (Hq : 0 < q) by (eapply Qlt_le_trans; [apply pow2_pos | exact H1]).
  destruct (ilog2_spec q Hq) as [H3 H4].
  assert (ilog2 q < k + 1)%Z by (apply pow2_lt_inv; eapply Qle_lt_trans; eassumption).
  assert (k < ilog2 q + 1)%Z by (apply pow2_lt_inv; eapply Qle_lt_trans; eassumption).
  lia.
Qed.

Lemma ilog2_mono (x y : Q) : 0 < x -> x <= y -> (ilog2 x <= ilog2 y)%Z.
Proof.
  intros Hx Hxy.
  assert (Hy : 0 < y) by (eapply Qlt_le_trans; eassumption).
  destruct (ilog2_spec x Hx) as [H1 _]. destruct (ilog2_spec y Hy) as [_ H2].
  assert (ilog2 x < ilog2 y + 1)%Z; [|lia].
  apply pow2_lt_inv. eapply Qle_lt_trans; [|exact H2]. eapply Qle_trans; eassumption.
Qed.

(** ** Nearest integer *)

Lemma rne_bounds (q : Q) : (Qfloor q <= rne q <= Qfloor q + 1)%Z.
Proof.
  unfold rne. destruct (q - inject_Z (Qfloor q) ?= 1 # 2); [destruct (Z.even _)| |]; lia.
Qed.

Lemma rne_Z (q : Q) (n : Z) : q == inject_Z n -> rne q = n.
Proof.
  intros H. unfold rne.
  assert (Hf : Qfloor q = n) by (rewrite H; apply Qfloor_Z).
  rewrite Hf.
  assert (Hc : (q - inject_Z n ?= 1 # 2) = Lt).
  { apply Qlt_alt. rewrite H. setoid_replace (inject_Z n - inject_Z n) with 0 using relation Qeq by ring.
    reflexivity. }
  now rewrite Hc.
Qed.

Lemma rne_mono (x y : Q) : x <= y -> (rne x <= rne y)%Z.
Proof.
  intros Hxy. pose proof (Qfloor_resp_le x y Hxy) as Hf.
  pose proof (rne_bounds x) as Bx. pose proof (rne_bounds y) as By.
  destruct (Z.eq_dec (Qfloor x) (Qfloor y)) as [E|NE]; [|lia].
  unfold rne. rewrite <- E.
  assert (Hfrac : x - inject_Z (Qfloor x) <= y - inject_Z (Qfloor x)) by lra.
  destruct (Qcompare_spec (x - inject_Z (Qfloor x)) (1 # 2)) as [Hx|Hx|Hx];
    destruct (Qcompare_spec (y - inject_Z (Qfloor x)) (1 # 2)) as [Hy|Hy|Hy];
    try destruct (Z.even (Qfloor x)); try lia; exfalso; lra.
Qed.

Lemma rne_le_Z (q : Q) (n : Z) : q <= inject_Z n -> (rne q <= n)%Z.
Proof. intros H. rewrite <- (rne_Z (inject_Z n) n) by reflexivity. now apply rne_mono. Qed.

Lemma rne_ge_Z (q : Q) (n : Z) : inject_Z n <= q -> (n <= rne q)%Z.
Proof. intros H. rewrite <- (rne_Z (inject_Z n) n) by reflexivity. now apply rne_mono. Qed.

(** ** Rounding to 53 bits *)

Lemma exponent_mono (x y : Q) : 0 < x -> x <= y -> (exponent x <= exponent y)%Z.
Proof. intros Hx Hxy. unfold exponent. pose proof (ilog2_mono x y Hx Hxy). lia. Qed.



Lemma nearest_mono (x y : Q) : 0 < x -> x <= y -> nearest x <= nearest y.
Proof.
  intros Hx Hxy.
  assert (Hy : 0 < y) by (eapply Qlt_le_trans; eassumption).
  pose proof (exponent_mono x y Hx Hxy) as He.
  unfold nearest.
  destruct (Z.eq_dec (exponent x) (exponent y)) as [E|NE].
  - rewrite E. apply Qmult_le_compat_r; [|apply Qlt_le_weak, pow2_pos].
    rewrite <- Zle_Qle. apply rne_mono.
    apply Qmult_le_compat_r; [exact Hxy|].
    apply Qlt_le_weak, Qinv_lt_0_compat, pow2_pos.
  - set (k := ilog2 y).
    assert (Hey : exponent y = (k - 52)%Z) by (unfold exponent in *; fold k; lia).
    assert (Hex : (-1074 <= exponent x)%Z) by (unfold exponent; lia).
    assert (Hkx : (ilog2 x + 1 <= k)%Z) by (unfold exponent in *; fold k in He, NE, Hey; lia).
    destruct (ilog2_spec x Hx) as [_ Hx2]. destruct (ilog2_spec y Hy) as [Hy1 _]. fold k in Hy1.
    apply Qle_trans with (pow2 k).
    + assert (Hxk : x <= pow2 k).
      { apply Qlt_le_weak. eapply Qlt_le_trans; [exact Hx2|]. now apply pow2_le. }
      assert (Hd : x / pow2 (exponent x) <= inject_Z (2 ^ (k - exponent x))).
      { rewrite <- pow2_Z by lia. now apply div_pow2_le. }
      apply rne_le_Z in Hd.
      setoid_replace (pow2 k) with (pow2 (k - exponent x) * pow2 (exponent x)) using relation Qeq.
      * apply Qmult_le_compat_r; [|apply Qlt_le_weak, pow2_pos].
        apply le_pow2_Z; [lia|]. now rewrite <- Zle_Qle.
      * rewrite <- pow2_add. now replace (k - exponent x + exponent x)%Z with k by lia.
    + rewrite Hey.
      assert (Hd : inject_Z (2 ^ 52) <= y / pow2 (k - 52)).
      { rewrite <- pow2_Z by lia. replace 52%Z with (k - (k - 52))%Z at 1 by lia.
        now apply div_pow2_ge. }
      apply rne_ge_Z in Hd.
      setoid_replace (pow2 k) with (pow2 52 * pow2 (k - 52)) using relation Qeq.
      * apply Qmult_le_compat_r; [|apply Qlt_le_weak, pow2_pos].
        apply pow2_Z_le; [lia|]. now rewrite <- Zle_Qle.
      * rewrite <- pow2_add. now replace (52 + (k - 52))%Z with k by lia.
Qed.

Lemma nearest_nonneg (q : Q) : 0 < q -> 0 <= nearest q.
Proof.
  intros Hq. unfold nearest. apply Qmult_le_0_compat; [|apply Qlt_le_weak, pow2_pos].
  rewrite <- (Zle_Qle 0). apply rne_ge_Z.
  apply Qlt_le_weak, Qlt_shift_div_l; [apply pow2_pos|]. now rewrite Qmult_0_l.
Qed.

Lemma round_pos_case (q : Q) :
  (pow2 1024 <= nearest q /\ round_pos q = Infinity false) \/
  (nearest q < pow2 1024 /\ round_pos q = Fin (Qred (nearest q))).
Proof.
  unfold round_pos. destruct (Qle_bool (pow2 1024) (nearest q)) eqn:E.
  - left. split; [now apply Qle_bool_iff | reflexivity].
  - right. split; [|reflexivity]. apply Qnot_le_lt. intros H.
    apply Qle_bool_iff in H. congruence.
Qed.

Lemma round_of_pos (q : Q) : 0 < q -> round q = round_pos q.
Proof. intros H. unfold round. apply Qgt_alt in H. now rewrite H. Qed.

Lemma round_of_zero (q : Q) : q == 0 -> round q = Fin 0.
Proof. intros H. unfold round. apply Qeq_alt in H. now rewrite H. Qed.

(** Rounding is monotone (on the non-negative numbers, all this
    program needs). *)
Lemma round_mono (x y : Q) : 0 <= x -> x <= y -> le (round x) (round y) = true.
Proof.
  intros Hx Hxy.
  destruct (Qlt_le_dec 0 x) as [Hpx|Hzx].
  - assert (Hpy : 0 < y) by (eapply Qlt_le_trans; eassumption).
    rewrite !round_of_pos by assumption.
    pose proof (nearest_mono x y Hpx Hxy) as Hn.
    destruct (round_pos_case x) as [[Hx1 ->]|[Hx1 ->]];
      destruct (round_pos_case y) as [[Hy1 ->]|[Hy1 ->]]; simpl; try reflexivity.
    + exfalso. apply (Qlt_irrefl (pow2 1024)).
      eapply Qle_lt_trans; [exact Hx1|]. eapply Qle_lt_trans; eassumption.
    + apply Qle_bool_iff. now rewrite !Qred_correct.
  - rewrite (round_of_zero x) by (apply Qle_antisym; assumption).
    destruct (Qlt_le_dec 0 y) as [Hpy|Hzy].
    + rewrite round_of_pos by assumption.
      destruct (round_pos_case y) as [[_ ->]|[_ ->]]; simpl; [reflexivity|].
      apply Qle_bool_iff. rewrite Qred_correct. now apply nearest_nonneg.
    + rewrite (round_of_zero y); [reflexivity|]. apply Qle_antisym; [assumption|].
      eapply Qle_trans; eassumption.
Qed.


Lemma round_at_least (a a' x : Q) :
  0 <= a -> round a = Fin a' -> a <= x -> at_least a' (round x).
Proof.
  intros Ha Hra Hax. pose proof (round_mono a x Ha Hax) as H. rewrite Hra in H.
  destruct (round x) as [q| |[|]]; simpl in *; try discriminate; auto.
  now apply Qle_bool_iff.
Qed.

Lemma round_at_most (b b' x : Q) :
  0 <= x -> x <= b -> round b = Fin b' -> exists q, round x = Fin q /\ 0 <= q <= b'.
Proof.
  intros Hx Hxb Hrb.
  pose proof (round_mono x b Hx Hxb) as H. rewrite Hrb in H.
  pose proof (round_mono 0 x (Qle_refl 0) Hx) as H0.
  rewrite (round_of_zero 0) in H0 by reflexivity.
  destruct (round x) as [q| |[|]]; simpl in *; try discriminate.
  exists q. split; [reflexivity|]. split; now apply Qle_bool_iff.
Qed.


(** Rounding reads the value, not the fraction that denotes it. *)
Lemma ilog2_proper (x y : Q) : 0 < x -> x == y -> ilog2 x = ilog2 y.
Proof.
  intros Hx E. destruct (ilog2_spec x Hx) as [H1 H2].
  symmetry. apply ilog2_unique; now rewrite <- E.
Qed.

Lemma rne_proper (x y : Q) : x == y -> rne x = rne y.
Proof.
  intros E. unfold rne. rewrite (Qfloor_comp x y E).
  now rewrite (Qcompare_comp (x - inject_Z (Qfloor y)) (y - inject_Z (Qfloor y))
                 ltac:(now rewrite E) (1 # 2) (1 # 2) ltac:(reflexivity)).
Qed.

Lemma round_proper (x y : Q) : x == y -> round x = round y.
Proof.
  intros E.
  assert (Hpos : forall a b, 0 < a -> a == b -> round_pos a = round_pos b).
  { intros a b Ha Eab. unfold round_pos, nearest, exponent.
    rewrite (ilog2_proper a b Ha Eab).
    now rewrite (rne_proper (a / pow2 (Z.max (ilog2 b - 52) (-1074)))
                   (b / pow2 (Z.max (ilog2 b - 52) (-1074))) ltac:(now rewrite Eab)). }
  unfold round. rewrite (Qcompare_comp x y E 0 0 ltac:(reflexivity)).
  destruct (Qcompare_spec y 0) as [H|H|H]; [reflexivity | |].
  - f_equal. apply Hpos; [rewrite E; lra | now rewrite E].
  - apply Hpos; [now rewrite E | exact E].
Qed.

Lemma is_double_round (q : Q) : is_double q = true -> exists r, round q = Fin r /\ r == q.
Proof.
  unfold is_double. destruct (round q) as [r| |]; try discriminate.
  intros H. exists r. split; [reflexivity | now apply Qeq_bool_iff].
Qed.


(** ** The backoff delay *)

Lemma at_least_weaken (a b : Q) (x : Num) : b <= a -> at_least a x -> at_least b x.
Proof.
  intros Hab. destruct x as [q| |[|]]; simpl; auto. intros H. eapply Qle_trans; eassumption.
Qed.



Lemma add_at_least (a a' : Q) (x y : Num) :
  0 <= a -> round a = Fin a' -> at_least a x -> at_least 0 y -> at_least a' (add x y).
Proof.
  intros Ha Hra Hx Hy.
  destruct x as [p| |[|]]; simpl in Hx; try contradiction;
    destruct y as [q| |[|]]; simpl in Hy; try contradiction; simpl; auto.
  apply (round_at_least a); [assumption | assumption | lra].
Qed.

Lemma pow_2_at_least (i : nat) : at_least 1 (pow_2 i).
Proof.
  unfold pow_2. apply (round_at_least 1); [discriminate | reflexivity |].
  change 1 with (pow2 0). apply pow2_le. lia.
Qed.

Lemma base_at_least (i : nat) : at_least 1000 (mul (pow_2 i) (Fin 1000)).
Proof.
  pose proof (pow_2_at_least i) as H.
  destruct (pow_2 i) as [q| |[|]]; simpl in H; try contradiction; [|exact I].
  simpl. apply (round_at_least 1000); [discriminate | reflexivity | lra].
Qed.

Lemma jitter_nonneg (r : Q) : 0 <= r -> at_least 0 (jitter r).
Proof.
  intros Hr. unfold jitter. simpl.
  apply (round_at_least 0); [apply Qle_refl | reflexivity | lra].
Qed.

Lemma backoff_delay_min (i : nat) (r : Q) : 0 <= r -> at_least 1000 (backoff_delay i r).
Proof.
  intros Hr. unfold backoff_delay.
  apply (add_at_least 1000); [discriminate | reflexivity | apply base_at_least |].
  now apply jitter_nonneg.
Qed.


Lemma jitter_at_most (r : Q) :
  0 <= r -> r < 1 -> exists j, jitter r = Fin j /\ 0 <= j <= 500.
Proof.
  intros H0 H1. apply (round_at_most 500); [lra | lra | reflexivity].
Qed.




End Rounding.

(** ** Steps of a computation *)

Lemma bind_return {S A B} (m : Eff S A) (k : A -> Eff S B) (w w' : S) (a : A) :
  m w = (Return a, w') -> bind m k w = k a w'.
Proof. intros H. unfold bind. now rewrite H. Qed.

Lemma bind_throw {S A B} (m : Eff S A) (k : A -> Eff S B) (w w' : S) (e : Js.Error) :
  m w = (Throw e, w') -> bind m k w = (Throw e, w').
Proof. intros H. unfold bind. now rewrite H. Qed.

Lemma try_catch_return {S A} (m : Eff S A) (h : Js.Error -> Eff S A) (w w' : S) (a : A) :
  m w = (Return a, w') -> try_catch m h w = (Return a, w').
Proof. intros H. unfold try_catch. now rewrite H. Qed.

Lemma try_catch_throw {S A} (m : Eff S A) (h : Js.Error -> Eff S A) (w w' : S) (e : Js.Error) :
  m w = (Throw e, w') -> try_catch m h w = h e w'.
Proof. intros H. unfold try_catch. now rewrite H. Qed.

Lemma bind_console_log {B} (l : LogLine) (k : unit -> M B) (w : World) :
  bind (console_log l) k w = k tt (add_log l w).
Proof. reflexivity. Qed.

(** ** Sorting and slicing *)

Section Sort.

Context {A : Type}.
Variable key : A -> Q.

Lemma insert_sorted_perm (c : A -> A -> Q) (x : A) (l : list A) :
  Permutation (Builtin.insert_sorted c x l) (x :: l).
Proof.
  induction l as [|y l IH]; simpl; [reflexivity|].
  destruct (Js.Qlt_bool 0 (c x y)); [|reflexivity].
  rewrite IH. apply perm_swap.
Qed.

Lemma sort_perm (c : A -> A -> Q) (l : list A) : Permutation (Builtin.sort c l) l.
Proof.
  induction l as [|x l IH]; simpl; [reflexivity|].
  unfold Builtin.sort in *. simpl. rewrite insert_sorted_perm. now rewrite IH.
Qed.

Lemma sort_length (c : A -> A -> Q) (l : list A) : length (Builtin.sort c l) = length l.
Proof. apply Permutation_length, sort_perm. Qed.

Lemma insert_sorted_desc (x : A) (l : list A) :
  StronglySorted (fun a b => (key b <= key a)%Q) l ->
  StronglySorted (fun a b => (key b <= key a)%Q)
                 (Builtin.insert_sorted (Builtin.descending key) x l).
Proof.
  induction l as [|y l IH]; intros Hs; simpl.
  - repeat constructor.
  - inversion Hs as [|y' l' Hl Hy]; subst.
    unfold Js.Qlt_bool, Builtin.descending at 1.
    destruct (Qle_bool (key y - key x) 0) eqn:E; simpl.
    + apply Qle_bool_iff in E. constructor; [exact Hs|].
      constructor; [lra|].
      eapply Forall_impl; [exact Hy|]. simpl. intros a Ha. lra.
    + assert (Hlt : (key x < key y)%Q).
      { destruct (Qlt_le_dec (key x) (key y)) as [H|H]; [exact H|].
        assert (Hb : Qle_bool (key y - key x) 0 = true) by (apply Qle_bool_iff; lra).
        congruence. }
      constructor; [now apply IH|].
      rewrite insert_sorted_perm. constructor; [lra | exact Hy].
Qed.

Lemma sort_desc (l : list A) :
  StronglySorted (fun a b => (key b <= key a)%Q) (Builtin.sort (Builtin.descending key) l).
Proof.
  induction l as [|x l IH]; [constructor|].
  unfold Builtin.sort in *. simpl. now apply insert_sorted_desc.
Qed.

(** Stability: records of equal key keep their order. *)
Lemma insert_sorted_stable (k : Q) (x : A) (l : list A) :
  List.filter (fun y => Qeq_bool (key y) k) (Builtin.insert_sorted (Builtin.descending key) x l)
  = List.filter (fun y => Qeq_bool (key y) k) (x :: l).
Proof.
  induction l as [|y l IH]; [reflexivity|].
  simpl Builtin.insert_sorted. unfold Js.Qlt_bool, Builtin.descending at 1.
  destruct (Qle_bool (key y - key x) 0) eqn:E; simpl negb; cbv iota; [reflexivity|].
  assert (Hlt : (key x < key y)%Q).
  { destruct (Qlt_le_dec (key x) (key y)) as [H|H]; [exact H|].
    assert (Hb : Qle_bool (key y - key x) 0 = true) by (apply Qle_bool_iff; lra).
    congruence. }
  simpl List.filter at 1. rewrite IH. simpl.
  destruct (Qeq_bool (key y) k) eqn:Ey; destruct (Qeq_bool (key x) k) eqn:Ex; try reflexivity.
  apply Qeq_bool_iff in Ey, Ex. lra.
Qed.

Lemma sort_stable (k : Q) (l : list A) :
  List.filter (fun y => Qeq_bool (key y) k) (Builtin.sort (Builtin.descending key) l)
  = List.filter (fun y => Qeq_bool (key y) k) l.
Proof.
  induction l as [|x l IH]; [reflexivity|].
  unfold Builtin.sort in *. simpl foldr. rewrite insert_sorted_stable.
  simpl. now rewrite IH.
Qed.
End Sort.

Lemma slice_from_to {A} (l : list A) (a b : Z) :
  (0 <= a <= b)%Z ->
  Builtin.slice l (Some a) (Some b) = take (Z.to_nat (b - a)) (drop (Z.to_nat a) l).
Proof.
  intros Hab. unfold Builtin.slice, Builtin.relative_index. simpl.
  destruct (a <? 0)%Z eqn:Ea; [lia|]. destruct (b <? 0)%Z eqn:Eb; [lia|].
  destruct (Z_le_gt_dec a (Z.of_nat (length l))) as [Ha|Ha].
  - rewrite (Z.min_l a) by lia.
    destruct (Z_le_gt_dec b (Z.of_nat (length l))) as [Hb|Hb].
    + now rewrite (Z.min_l b) by lia.
    + rewrite (Z.min_r b) by lia.
      rewrite !take_ge; [reflexivity | |]; rewrite length_drop; lia.
  - rewrite (Z.min_r a), (Z.min_r b) by lia.
    rewrite (drop_ge l (Z.to_nat a)) by lia.
    rewrite Z.sub_diag. simpl. now rewrite take_0, take_nil.
Qed.

(** Two consecutive slices of length [n] make the prefix of length [2n]. *)
Lemma slice_pages {A} (l : list A) (n : Z) :
  (0 <= n)%Z ->
  Builtin.slice l (Some 0%Z) (Some n) ++ Builtin.slice l (Some n) (Some (n + n)%Z)
  = take (Z.to_nat (2 * n)) l.
Proof.
  intros Hn. rewrite !slice_from_to by lia.
  replace (n - 0)%Z with n by lia. replace (n + n - n)%Z with n by lia.
  simpl drop. replace (Z.to_nat (2 * n)) with (Z.to_nat n + Z.to_nat n) by lia.
  now rewrite take_take_drop.
Qed.

Example parseInt_samples :
  Builtin.parseInt "10" = Some 10%Z /\ Builtin.parseInt "  -12ab" = Some (-12)%Z /\
  Builtin.parseInt "7.5" = Some 7%Z /\ Builtin.parseInt "" = None /\
  Builtin.parseInt "abc" = None.
Proof. repeat split. Qed.

Example slice_samples :
  Builtin.slice [1; 2; 3; 4; 5] (Some 1%Z) (Some 3%Z) = [2; 3] /\
  Builtin.slice [1; 2; 3; 4; 5] (Some 4%Z) (Some 9%Z) = [5] /\
  Builtin.slice [1; 2; 3; 4; 5] (Some (-2)%Z) (Some 5%Z) = [4; 5] /\
  Builtin.slice [1; 2; 3; 4; 5] None None = [].
Proof. repeat split. Qed.

Example sort_catalog_by_volume :
  ids (Builtin.sort (by_desc "volume24h") (mergeAndCleanTokenData [])) = ["SOL"; "BONK"; "JUP"] /\
  ids (Builtin.sort (by_desc "priceChange1h") (mergeAndCleanTokenData [])) = ["BONK"; "SOL"; "JUP"] /\
  ids (Builtin.sort (by_desc "id") (mergeAndCleanTokenData [])) = ["SOL"; "JUP"; "BONK"].
Proof. repeat split. Qed.

(** ** The retrying fetch client *)

Section FetchWithRetry.

Variable url : string.
Variable retries : nat.

Lemma axios_get_reject (w : World) (r : option Z) :
  http w url (count_occ string_dec (requests w) url) = Reject r ->
  axios_get url w = (Throw (AxiosError r), add_request url w).
Proof. intros H. unfold axios_get. now rewrite H. Qed.

Lemma axios_get_response (w : World) (d : Body) :
  http w url (count_occ string_dec (requests w) url) = Response d ->
  axios_get url w = (Return d, add_request url w).
Proof. intros H. unfold axios_get. now rewrite H. Qed.

Lemma loop_success (i fuel : nat) (w : World) (d : Body) :
  http w url (count_occ string_dec (requests w) url) = Response d ->
  fetchWithRetry_loop url retries i (S fuel) w = (Return d, add_request url w).
Proof.
  intros H. simpl. unfold try_catch. now rewrite (axios_get_response _ _ H).
Qed.

Lemma loop_rethrow (i fuel : nat) (w : World) (r : option Z) :
  http w url (count_occ string_dec (requests w) url) = Reject r ->
  (Z.of_nat i =? Z.of_nat retries - 1)%Z || negb (isTransientError (AxiosError r)) = true ->
  fetchWithRetry_loop url retries i (S fuel) w = (Throw (AxiosError r), add_request url w).
Proof.
  intros H Hc. simpl. unfold try_catch. rewrite (axios_get_reject _ _ H).
  now rewrite Hc.
Qed.

Lemma loop_retry (i fuel : nat) (w : World) (r : option Z) :
  http w url (count_occ string_dec (requests w) url) = Reject r ->
  (Z.of_nat i =? Z.of_nat retries - 1)%Z || negb (isTransientError (AxiosError r)) = false ->
  fetchWithRetry_loop url retries i (S fuel) w =
  fetchWithRetry_loop url retries (S i) fuel (retried url retries i (AxiosError r) w).
Proof.
  intros H Hc. simpl. unfold try_catch. rewrite (axios_get_reject _ _ H).
  now rewrite Hc.
Qed.

Lemma transient_status_spec (s : Z) :
  transient_status s <-> isTransientError (AxiosError (Some s)) = true.
Proof.
  unfold transient_status. simpl. rewrite orb_true_iff, Z.eqb_eq, Z.leb_le. tauto.
Qed.

Lemma count_after_retried (i : nat) (e : Js.Error) (w : World) :
  count_occ string_dec (requests (retried url retries i e w)) url =
  S (count_occ string_dec (requests w) url).
Proof.
  simpl. rewrite count_occ_app. simpl.
  destruct (string_dec url url); [lia | congruence].
Qed.

End FetchWithRetry.


Section Exhaustion.

Variable url : string.
Variable retries : nat.

Lemma delays_from_cons (w : World) (e : Js.Error) (i n : nat) :
  delays_from w i (S n) =
  backoff_delay i (random w (random_calls w)) :: delays_from (retried url retries i e w) (S i) n.
Proof.
  unfold delays_from. simpl seq. rewrite <- seq_shift. simpl. rewrite List.map_map. simpl.
  rewrite !Nat.add_0_r. f_equal. apply List.map_ext. intros k.
  now rewrite !Nat.add_succ_r.
Qed.


End Exhaustion.



(** C7. When the first attempt fails with an error that is not
    transient (a status other than 429 and below 500, or no response at
    all), [fetchWithRetry] rejects with that error at once: this one
    request is the only one, no timer is armed, nothing is drawn and
    nothing is logged. *)
Theorem fetchWithRetry_nontransient_fails_fast
    (url : string) (retries : nat) (w : World) (r : option Z) :
  0 < retries ->
  http w url (count_occ string_dec (requests w) url) = Reject r ->
  (forall s, r = Some s -> ~ transient_status s) ->
  completion (fetchWithRetry url retries) w = Throw (AxiosError r) /\
  requests (after (fetchWithRetry url retries) w) = requests w ++ [url] /\
  timeouts (after (fetchWithRetry url retries) w) = timeouts w /\
  random_calls (after (fetchWithRetry url retries) w) = random_calls w /\
  console (after (fetchWithRetry url retries) w) = console w.
Proof.
  intros Hpos Hrej Hnt. unfold fetchWithRetry, completion, after.
  destruct retries as [|n]; [lia|].
  rewrite (loop_rethrow url (S n) 0 n w r Hrej).
  - simpl. auto.
  - apply orb_true_iff. right. apply negb_true_iff.
    destruct r as [s|]; [|reflexivity].
    destruct (isTransientError (AxiosError (Some s))) eqn:E; [|reflexivity].
    apply transient_status_spec in E. now destruct (Hnt s eq_refl).
Qed.

Lemma fetchWithRetry_nontransient_fails_fast_witness :
  completion (fetchWithRetry "u" 3) (fresh_world (always_status 404) (1 # 4)) =
    Throw (AxiosError (Some 404%Z)) /\
  requests (after (fetchWithRetry "u" 3) (fresh_world (always_status 404) (1 # 4))) = ["u"] /\
  timeouts (after (fetchWithRetry "u" 3) (fresh_world (always_status 404) (1 # 4))) = [].
Proof.
  destruct (fetchWithRetry_nontransient_fails_fast "u" 3
              (fresh_world (always_status 404) (1 # 4)) (Some 404%Z))
    as (Hc & Hreq & Htim & _).
  - lia.
  - reflexivity.
  - intros s Hs. injection Hs as <-. unfold transient_status. lia.
  - split; [exact Hc | split; [exact Hreq | exact Htim]].
Defined.

(** *** What a fetch leaves alone *)

Lemma fetch_frame_refl (w : World) : fetch_frame w w.
Proof. unfold fetch_frame. auto 10. Qed.

Lemma fetch_frame_trans (w1 w2 w3 : World) :
  fetch_frame w1 w2 -> fetch_frame w2 w3 -> fetch_frame w1 w3.
Proof.
  unfold fetch_frame.
  intros (a1 & a2 & a3 & a4 & a5 & a6) (b1 & b2 & b3 & b4 & b5 & b6).
  repeat split; congruence.
Qed.

Lemma fetch_frame_add_request (url : string) (w : World) : fetch_frame w (add_request url w).
Proof. unfold fetch_frame. simpl. auto 10. Qed.

Lemma fetch_frame_retried (url : string) (retries i : nat) (e : Js.Error) (w : World) :
  fetch_frame w (retried url retries i e w).
Proof. unfold fetch_frame. simpl. auto 10. Qed.

Lemma fetchWithRetry_loop_frame (url : string) (retries fuel : nat) :
  forall (i : nat) (w : World),
    fetch_frame w (after (fetchWithRetry_loop url retries i fuel) w).
Proof.
  induction fuel as [|f IH]; intros i w; unfold after.
  - apply fetch_frame_refl.
  - destruct (http w url (count_occ string_dec (requests w) url)) as [d|r] eqn:Hh.
    + rewrite (loop_success url retries i f w d Hh). apply fetch_frame_add_request.
    + destruct ((Z.of_nat i =? Z.of_nat retries - 1)%Z
                || negb (isTransientError (AxiosError r))) eqn:Hc.
      * rewrite (loop_rethrow url retries i f w r Hh Hc). apply fetch_frame_add_request.
      * rewrite (loop_retry url retries i f w r Hh Hc).
        eapply fetch_frame_trans; [apply fetch_frame_retried | apply IH].
Qed.

Lemma fetchWithRetry_frame (url : string) (retries : nat) (w : World) :
  fetch_frame w (after (fetchWithRetry url retries) w).
Proof. apply fetchWithRetry_loop_frame. Qed.

Lemma bind_after_frame {A B} (m : M A) (k : A -> M B) (w : World) :
  fetch_frame w (after m w) ->
  (forall a w1, fetch_frame w1 (after (k a) w1)) ->
  fetch_frame w (after (bind m k) w).
Proof.
  intros Hm Hk. unfold after, bind in *. destruct (m w) as [[a|e] w1]; simpl in *.
  - eapply fetch_frame_trans; [exact Hm | apply Hk].
  - exact Hm.
Qed.

Lemma fetchDexScreener_frame (symbol : string) (w : World) :
  fetch_frame w (after (fetchDexScreener symbol) w).
Proof.
  unfold fetchDexScreener. apply bind_after_frame; [apply fetchWithRetry_frame|].
  intros [|[p|] d i|l] w1; apply fetch_frame_refl.
Qed.

Lemma fetchJupiterPrice_frame (symbol : string) (w : World) :
  fetch_frame w (after (fetchJupiterPrice symbol) w).
Proof.
  unfold fetchJupiterPrice. apply bind_after_frame; [apply fetchWithRetry_frame|].
  intros [|p d i|l] w1; apply fetch_frame_refl.
Qed.

(** ** fetchGeckoTerminal *)

(** C10. [fetchGeckoTerminal] rejects on every call and issues no HTTP
    request: with the key unset (or empty) it throws the missing-key
    Error; with a key set, the guard reads the undeclared identifier
    GCHO_API_KEY, a ReferenceError. It never returns pools. *)
Theorem fetchGeckoTerminal_always_throws (symbol : string) (w : World) :
  completion (fetchGeckoTerminal None symbol) w =
    Throw (PlainError "GeckoTerminal API Key is missing or invalid in the .env file.") /\
  completion (fetchGeckoTerminal (Some "") symbol) w =
    Throw (PlainError "GeckoTerminal API Key is missing or invalid in the .env file.") /\
  (forall c s, completion (fetchGeckoTerminal (Some (String c s)) symbol) w =
                 Throw (ReferenceError "GCHO_API_KEY")) /\
  (forall key,
      (exists e, completion (fetchGeckoTerminal key symbol) w = Throw e) /\
      after (fetchGeckoTerminal key symbol) w = w /\
      requests (after (fetchGeckoTerminal key symbol) w) = requests w).
Proof.
  split; [reflexivity|]. split; [reflexivity|]. split; [reflexivity|].
  intros [[|c s]|]; (split; [eexists; reflexivity | split; reflexivity]).
Qed.

(** ** The merge engine *)

(** C4. [mergeAndCleanTokenData] does not give one record per input
    symbol: it returns the same three records (SOL, JUP, BONK) for every
    input. For an input holding WEN alone, with a source present, the
    result has no record for WEN and three records for symbols that
    were not passed in. *)
Theorem mergeAndCleanTokenData_ignores_input :
  Forall (fun r => has_source r = true) wen_only /\
  ids (mergeAndCleanTokenData wen_only) = ["SOL"; "JUP"; "BONK"] /\
  records_for "WEN" (mergeAndCleanTokenData wen_only) = [] /\
  (forall rawPairs, mergeAndCleanTokenData rawPairs = mergeAndCleanTokenData []).
Proof.
  split; [repeat constructor|]. split; [reflexivity|]. split; [reflexivity|].
  intros rawPairs. reflexivity.
Qed.

(** ** The query service *)

Lemma getJson_served (key : string) (w : World) :
  redis_up w (redis_cmds w) = true ->
  getJson key w = (Return (read_at (now w) key w), next_redis_cmd w).
Proof.
  intros Hup. unfold getJson, redis_get, read_at. rewrite Hup.
  now destruct (store w !! key).
Qed.

(** C8. With Redis answering, a request that misses the view cache
    while no catalog is readable under the catalog key (none stored,
    expired, or an empty list) is answered 503 with an error body that
    tells to try again, and the key space is left as it was: no view is
    cached. *)
Theorem getTokenList_unavailable (query : Query) (w : World) :
  redis_up w (redis_cmds w) = true ->
  redis_up w (S (redis_cmds w)) = true ->
  read_at (now w) (key_of query) w = None ->
  read_at (now w) TOKEN_LIST_KEY w = None \/
  read_at (now w) TOKEN_LIST_KEY w = Some (SCatalog []) ->
  completion (getTokenList query) w =
    Return (mkRes 503
              (JsonError "Token list is currently being aggregated. Try again shortly.")) /\
  (exists before rest,
      "Token list is currently being aggregated. Try again shortly."
      = before +:+ "Try again" +:+ rest) /\
  store (after (getTokenList query) w) = store w.
Proof.
  intros Hup1 Hup2 Hmiss Hcat.
  assert (Hrun : getTokenList query w =
                 (Return (mkRes 503 (JsonError UNAVAILABLE)), next_redis_cmd (next_redis_cmd w))).
  { unfold getTokenList, try_catch, bind. fold (key_of query).
    rewrite (getJson_served _ w Hup1), Hmiss.
    rewrite (getJson_served _ (next_redis_cmd w) Hup2).
    change (read_at (now (next_redis_cmd w)) TOKEN_LIST_KEY (next_redis_cmd w))
      with (read_at (now w) TOKEN_LIST_KEY w).
    now destruct Hcat as [-> | ->]. }
  unfold completion, after. rewrite Hrun. simpl. split; [reflexivity|]. split; [|reflexivity].
  exists "Token list is currently being aggregated. ", " shortly.". reflexivity.
Qed.

Lemma getTokenList_unavailable_witness :
  completion (getTokenList (mkQuery None None None None))
             (fresh_world (always_status 404) (1 # 4)) =
    Return (mkRes 503
              (JsonError "Token list is currently being aggregated. Try again shortly.")) /\
  store (after (getTokenList (mkQuery None None None None))
               (fresh_world (always_status 404) (1 # 4))) = ∅.
Proof.
  destruct (getTokenList_unavailable (mkQuery None None None None)
              (fresh_world (always_status 404) (1 # 4))) as (Hc & _ & Hs).
  - reflexivity.
  - reflexivity.
  - reflexivity.
  - left. reflexivity.
  - split; [exact Hc | exact Hs].
Defined.

(** A live cached view is served whatever cursor the request carries. *)
Lemma getTokenList_hit (query : Query) (w : World) (v : QueryResultView) :
  redis_up w (redis_cmds w) = true ->
  read_at (now w) (key_of query) w = Some (SView v) ->
  completion (getTokenList query) w = Return (mkRes 200 (JsonView (set_cached v))).
Proof.
  intros Hup Hhit. unfold completion, getTokenList, try_catch, bind. fold (key_of query).
  now rewrite (getJson_served _ w Hup), Hhit.
Qed.

(** On a miss with a readable, non-empty catalog the handler answers
    with the computed view and caches it, for 30 seconds, under the key
    of the query. *)
Lemma getTokenList_miss (query : Query) (w : World) (catalog : list TokenRecord) :
  (forall n, redis_up w n = true) ->
  read_at (now w) (key_of query) w = None ->
  read_at (now w) TOKEN_LIST_KEY w = Some (SCatalog catalog) ->
  catalog <> [] ->
  getTokenList query w =
  (Return (mkRes 200 (JsonView (page_view query catalog (now w)))),
   with_store
     (fun s => <[key_of query := (SView (page_view query catalog (now w)),
                                  (now w + inject_Z (CACHE_TTL * 1000))%Q)]> s)
     (next_redis_cmd (next_redis_cmd (next_redis_cmd w)))).
Proof.
  intros Hup Hmiss Hcat Hne.
  unfold getTokenList, try_catch. fold (key_of query).
  rewrite (bind_return _ _ _ _ _ (getJson_served _ w (Hup _))), Hmiss.
  rewrite (bind_return _ _ _ _ _ (getJson_served _ (next_redis_cmd w) (Hup _))).
  change (read_at (now (next_redis_cmd w)) TOKEN_LIST_KEY (next_redis_cmd w))
    with (read_at (now w) TOKEN_LIST_KEY w).
  rewrite Hcat. destruct catalog as [|r catalog]; [congruence|].
  unfold bind, Date_now, setJson, redis_set_ex, ret. simpl redis_up. simpl redis_cmds.
  rewrite Hup. reflexivity.
Qed.

(** Within the 30 seconds that follow, a request of the same limit,
    sortBy and filterBy gets the view of the first request, whatever
    its cursor. *)
Lemma getTokenList_cursor_ignored (q1 q2 : Query) (w : World) (catalog : list TokenRecord) :
  (forall n, redis_up w n = true) ->
  read_at (now w) (key_of q1) w = None ->
  read_at (now w) TOKEN_LIST_KEY w = Some (SCatalog catalog) ->
  catalog <> [] ->
  key_of q2 = key_of q1 ->
  completion (getTokenList q2) (after (getTokenList q1) w)
  = Return (mkRes 200 (JsonView (set_cached (page_view q1 catalog (now w))))).
Proof.
  intros Hup Hmiss Hcat Hne Hkey.
  unfold after. rewrite (getTokenList_miss q1 w catalog Hup Hmiss Hcat Hne). simpl snd.
  apply getTokenList_hit.
  - apply Hup.
  - unfold read_at. simpl store. simpl now. rewrite Hkey, lookup_insert_eq.
    unfold live, Js.Qlt_bool. simpl snd. simpl fst.
    destruct (Qle_bool (now w + inject_Z (CACHE_TTL * 1000)) (now w)) eqn:E; [|reflexivity].
    apply Qle_bool_iff in E. change (inject_Z (CACHE_TTL * 1000)) with 30000%Q in E. lra.
Qed.

(** Without the cache the two pages would be right: the views computed
    for cursor 0 and for cursor [L], both of limit [L], hold the sorted
    prefix of length [2L] between them. *)
Lemma page_view_consecutive (q1 q2 : Query) (catalog : list TokenRecord) (t : Q)
    (L : Z) (c : string) :
  q_limit q2 = q_limit q1 -> q_sortBy q2 = q_sortBy q1 ->
  Builtin.parseInt (default "20" (q_limit q1)) = Some L -> (0 <= L)%Z ->
  q_nextCursor q1 = Some "0" ->
  q_nextCursor q2 = Some c -> c <> "" -> Builtin.parseInt c = Some L ->
  data (page_view q1 catalog t) ++ data (page_view q2 catalog t)
  = take (Z.to_nat (2 * L))
         (Builtin.sort (by_desc (default "volume24h" (q_sortBy q1))) catalog).
Proof.
  intros Hl Hs HL Hpos Hc1 Hc2 Hc Hpc.
  assert (Ht : truthy_env (Some c) = true).
  { simpl. unfold Builtin.truthy_string. apply negb_true_iff.
    apply String.eqb_neq. exact Hc. }
  unfold page_view. rewrite Hl, Hs, Hc1, Hc2, HL, Ht.
  change (truthy_env (Some "0")) with true. cbv iota.
  change (default "" (Some c)) with c. rewrite Hpc.
  change (Builtin.parseInt (default "" (Some "0"))) with (Some 0%Z).
  cbv [data Builtin.add]. rewrite Z.add_0_l.
  apply slice_pages. exact Hpos.
Qed.

(** C2. The second page is not served. After a full aggregation, the
    request [limit=1, nextCursor=0] returns SOL and the cursor "1"; the
    request [limit=1, nextCursor=1] that follows hits the view cached
    under the key of the first (the cursor is no part of the key) and
    returns SOL again, marked cached. The two pages are not disjoint,
    and their concatenation is not the sorted prefix SOL, BONK. *)
Theorem getTokenList_second_page_repeats_first :
  exists v1 v2,
    completion (getTokenList page1) seeded_world = Return (mkRes 200 (JsonView v1)) /\
    completion (getTokenList page2) (after (getTokenList page1) seeded_world)
      = Return (mkRes 200 (JsonView v2)) /\
    nextCursor (pagination v1) = q_nextCursor page2 /\
    key_of page1 = key_of page2 /\
    cached v1 = false /\ cached v2 = true /\
    ids (data v1) = ["SOL"] /\
    ids (data v2) = ["SOL"] /\
    ids (take 2 (Builtin.sort (by_desc "volume24h") (mergeAndCleanTokenData [])))
      = ["SOL"; "BONK"].
Proof.
  eexists. eexists.
  split; [vm_compute; reflexivity|].
  split; [vm_compute; reflexivity|].
  repeat (split; [reflexivity|]). reflexivity.
Qed.

(** ** The full aggregation job *)

Lemma fetchSymbol_total (symbol : string) (w : World) :
  exists r w', fetchSymbol symbol w = (Return r, w') /\ fetch_frame w w'.
Proof.
  pose proof (fetchDexScreener_frame symbol w) as Hd.
  unfold fetchSymbol, bind, settled, after in *.
  destruct (fetchDexScreener symbol w) as [cd w1]. simpl in *.
  pose proof (fetchJupiterPrice_frame symbol w1) as Hj. unfold after in Hj.
  destruct (fetchJupiterPrice symbol w1) as [cj w2]. simpl in *.
  eexists. eexists. split; [reflexivity | eapply fetch_frame_trans; eassumption].
Qed.

Lemma for_each_fetchSymbol (l : list string) :
  forall w : World,
    exists rs w', for_each fetchSymbol l w = (Return rs, w') /\ fetch_frame w w'.
Proof.
  induction l as [|x l IH]; intros w.
  - exists [], w. split; [reflexivity | apply fetch_frame_refl].
  - destruct (fetchSymbol_total x w) as (r & w1 & Hr & Hf).
    destruct (IH w1) as (rs & w2 & Hrs & Hfs).
    exists (r :: rs), w2. split; [|eapply fetch_frame_trans; eassumption].
    simpl. unfold bind at 1. rewrite Hr. unfold bind at 1. now rewrite Hrs.
Qed.

(** Whenever the write of a run is served, the run succeeds and the
    catalog is stored to expire 30 seconds later. *)
Lemma runFullAggregation_expiry (w : World) :
  redis_up w (redis_cmds w) = true ->
  List.last (console (after runFullAggregation w)) SchedulerStarting
    = SchedulerUpdated 3 TOKEN_LIST_KEY /\
  store (after runFullAggregation w) !! TOKEN_LIST_KEY
    = Some (SCatalog (mergeAndCleanTokenData []),
            (now (after runFullAggregation w) + inject_Z (CACHE_TTL_SECONDS * 1000))%Q).
Proof.
  intros Hup.
  destruct (for_each_fetchSymbol MOCK_TOP_TOKENS (add_log SchedulerStarting w))
    as (rs & w1 & Hrs & (Hs & Hu & Hc & _)).
  simpl in Hu, Hc.
  assert (Hset : setJson TOKEN_LIST_KEY (SCatalog (mergeAndCleanTokenData (List.filter has_source rs))) None w1
                 = (Return tt,
                    with_store (fun s => <[TOKEN_LIST_KEY :=
                                  (SCatalog (mergeAndCleanTokenData []),
                                   (now w1 + inject_Z (CACHE_TTL_SECONDS * 1000))%Q)]> s)
                               (next_redis_cmd w1))).
  { unfold setJson, redis_set_ex. now rewrite Hu, Hc, Hup. }
  assert (Hrun : runFullAggregation w
                 = (Return tt,
                    add_log (SchedulerUpdated 3 TOKEN_LIST_KEY)
                      (with_store (fun s => <[TOKEN_LIST_KEY :=
                                    (SCatalog (mergeAndCleanTokenData []),
                                     (now w1 + inject_Z (CACHE_TTL_SECONDS * 1000))%Q)]> s)
                                  (next_redis_cmd w1)))).
  { unfold runFullAggregation, aggregation_steps. rewrite bind_console_log.
    erewrite try_catch_return; [reflexivity|].
    rewrite (bind_return _ _ _ _ _ Hrs).
    rewrite (bind_return _ _ _ _ _ Hset). reflexivity. }
  unfold after. rewrite Hrun. simpl. split.
  - now rewrite last_last.
  - now rewrite lookup_insert_eq.
Qed.

(** The catalog of a successful run cannot be read from 30 seconds
    after it was written. *)
Lemma runFullAggregation_catalog_gone (w : World) (t : Q) :
  redis_up w (redis_cmds w) = true ->
  (now (after runFullAggregation w) + inject_Z (CACHE_TTL_SECONDS * 1000) <= t)%Q ->
  read_at t TOKEN_LIST_KEY (after runFullAggregation w) = None.
Proof.
  intros Hup Ht. destruct (runFullAggregation_expiry w Hup) as [_ Hst].
  unfold read_at. rewrite Hst. unfold live, Js.Qlt_bool. simpl.
  apply Qle_bool_iff in Ht. now rewrite Ht.
Qed.

(** C1. The catalog does not stay until the next cycle. A successful
    run from an empty key space at instant 0 stores the catalog with
    the default expiry of 30 seconds: it is read back 29.999 s later,
    but is gone at 30 s and still gone at 299.999 s, just before the
    next run of the 5-minute schedule. *)
Theorem runFullAggregation_catalog_expires_before_next_cycle :
  console seeded_world = [SchedulerStarting; SchedulerUpdated 3 TOKEN_LIST_KEY] /\
  now seeded_world = 0%Q /\
  (snd <$> store seeded_world !! TOKEN_LIST_KEY) = Some (0 + inject_Z (30 * 1000))%Q /\
  read_at 29999%Q TOKEN_LIST_KEY seeded_world = Some (SCatalog (mergeAndCleanTokenData [])) /\
  read_at 30000%Q TOKEN_LIST_KEY seeded_world = None /\
  read_at (inject_Z (AGGREGATION_PERIOD * 1000) - 1)%Q TOKEN_LIST_KEY seeded_world = None.
Proof.
  split; [vm_compute; reflexivity|].
  split; [vm_compute; reflexivity|].
  split.
  - unfold seeded_world.
    destruct (runFullAggregation_expiry (fresh_world (always_status 404) (1 # 4)) eq_refl)
      as [_ Hst].
    rewrite Hst. reflexivity.
  - repeat split; vm_compute; reflexivity.
Qed.

(** ** The realtime ticker job *)

(** [runFullAggregation] never rejects: its body is inside a [try]. *)
Lemma runFullAggregation_total (w : World) :
  exists w', runFullAggregation w = (Return tt, w').
Proof.
  unfold runFullAggregation, aggregation_steps. rewrite bind_console_log.
  unfold try_catch.
  match goal with |- context [match ?m (add_log SchedulerStarting w) with _ => _ end] =>
    destruct (m (add_log SchedulerStarting w)) as [[[]|e] w1] end.
  - now exists w1.
  - now eexists.
Qed.

(** [startScheduler] hands both job functions to the cron library as
    they are. *)
Lemma startScheduler_registers (w : World) :
  completion startScheduler w
  = Return [ mkScheduled AGGREGATION_CRON runFullAggregation;
             mkScheduled TICKER_CRON runRealtimeTicker ].
Proof. reflexivity. Qed.

(** A rejected fetch leaves [runRealtimeTicker] as a rejection: nothing
    in the job catches it. *)
Lemma runRealtimeTicker_fetch_rejection (w : World) (e : Js.Error) :
  completion (fetchDexScreener "SOL") (after (getJson TICKER_KEY) w) = Throw e ->
  (completion (getJson TICKER_KEY) w = Throw RedisError \/
   completion runRealtimeTicker w = Throw e) /\
  (exists e', completion runRealtimeTicker w = Throw e') /\
  after runRealtimeTicker w
    = after (fetchDexScreener "SOL") (after (getJson TICKER_KEY) w).
Proof.
  unfold completion, after, runRealtimeTicker, bind, promise_all2.
  destruct (getJson TICKER_KEY w) as [c1 w1] eqn:H1. simpl.
  destruct (fetchDexScreener "SOL" w1) as [c2 w2]. simpl. intros ->.
  destruct c1 as [old|e1]; simpl.
  - split; [now right|]. split; [now eexists | reflexivity].
  - split; [|split; [now eexists | reflexivity]].
    left. unfold getJson, redis_get in H1.
    destruct (redis_up w (redis_cmds w)); [|now inversion H1].
    destruct (store w !! TICKER_KEY); inversion H1.
Qed.

(** C3. A failure inside the ticker job is not caught in the job. With
    the upstream answering 500 to every request, the fetch gives up
    after three attempts and [runRealtimeTicker] completes abruptly
    with that error, having written no [console.error] line (and no
    update, no TickerState). With Redis down it completes abruptly with
    the Redis error. [startScheduler] registers the job itself, with no
    handler around it. The sibling job [runFullAggregation] does catch:
    with Redis down it completes normally and logs the failure. *)
Theorem runRealtimeTicker_failure_escapes :
  completion startScheduler (fresh_world (always_status 500) (1 # 4))
    = Return [ mkScheduled AGGREGATION_CRON runFullAggregation;
               mkScheduled TICKER_CRON runRealtimeTicker ] /\
  completion runRealtimeTicker (fresh_world (always_status 500) (1 # 4))
    = Throw (AxiosError (Some 500%Z)) /\
  length (requests (after runRealtimeTicker (fresh_world (always_status 500) (1 # 4)))) = 3 /\
  error_lines (after runRealtimeTicker (fresh_world (always_status 500) (1 # 4))) = [] /\
  published (after runRealtimeTicker (fresh_world (always_status 500) (1 # 4))) = [] /\
  store (after runRealtimeTicker (fresh_world (always_status 500) (1 # 4))) = ∅ /\
  completion runRealtimeTicker
    (redis_down_world (fun _ _ => Response (BodyObject (Some []) None None)) (1 # 4))
    = Throw RedisError /\
  completion runFullAggregation (redis_down_world (always_status 500) (1 # 4)) = Return tt /\
  error_lines (after runFullAggregation (redis_down_world (always_status 500) (1 # 4)))
    = [SchedulerFailed RedisError].
Proof.
  split; [apply startScheduler_registers|].
  repeat split; vm_compute; reflexivity.
Qed.

(** The threshold test on doubles: 100 to 100.10 and 10 to 10.005 are
    moves, 100.10 to 100.105 is none. The price read from the text
    [10.005] is a double just above it. *)
Example moved_samples :
  moved (Js.round 100.10%Q) (Fin 100) = true /\
  moved (Js.round 100.105%Q) (Js.round 100.10%Q) = false /\
  moved (Js.round 10.005%Q) (Fin 10) = true /\
  moved (Fin 100) (Fin 100) = false.
Proof. repeat split; vm_compute; reflexivity. Qed.

Lemma fetchDexScreener_result (symbol : string) (w : World) (l : list Pair) :
  completion (fetchDexScreener symbol) w = Return l ->
  exists w', fetchDexScreener symbol w = (Return l, w') /\ fetch_frame w w'.
Proof.
  intros H. pose proof (fetchDexScreener_frame symbol w) as Hf.
  unfold completion, after in *. destruct (fetchDexScreener symbol w) as [c w'].
  simpl in *. subst c. now exists w'.
Qed.

(** C5. A price that has moved is not always published, and the new
    price is not always written. With the TickerState at 100.00 and a
    reply whose only pair is quoted at 100.10 and has no [volume]
    object, the test of the threshold succeeds and reading
    [latestPair.volume.h24] throws: the cycle is rejected, nothing is
    published and the TickerState stays at 100.00. The comparator of
    the sort, two lines above, reads [volume?.h24] and takes the same
    pair. With a [volume] object on the pair of that price, one event
    of that price is published and the price becomes the TickerState. *)
Theorem runRealtimeTicker_missing_volume :
  moved (Js.round 100.10%Q) (Fin 100.00%Q) = true /\
  Builtin.sort by_volume_desc [mkPair (Js.round 100.10%Q) None]
    = [mkPair (Js.round 100.10%Q) None] /\
  completion runRealtimeTicker no_volume_world
    = Throw (TypeError "Cannot read properties of undefined (reading 'h24')") /\
  published (after runRealtimeTicker no_volume_world) = [] /\
  read_at 0%Q TICKER_KEY (after runRealtimeTicker no_volume_world)
    = Some (STicker (Some 100.00%Q)) /\
  completion runRealtimeTicker ticker_world = Return tt /\
  published (after runRealtimeTicker ticker_world)
    = [(REALTIME_CHANNEL,
        mkUpdate "SOL" (Js.to_json (Js.round 100.10%Q)) (Some 900000000%Q) 0%Q)] /\
  read_at 0%Q TICKER_KEY (after runRealtimeTicker ticker_world)
    = Some (STicker (Js.to_json (Js.round 100.10%Q))).
Proof. repeat split; vm_compute; reflexivity. Qed.

(** ** The broadcast gateway *)

(** C9. For every message on the broadcast channel the handler
    completes normally. If the text is not JSON, nothing is emitted and
    one error is logged. If it parses, the value is emitted as a
    [priceUpdate] event once to every connected socket. *)
Theorem on_message_relays_or_drops
    (JSON_parse : string -> option Json) (message : string) (g : Gateway) :
  completion (on_message JSON_parse REALTIME_CHANNEL message) g = Return tt /\
  clients (after (on_message JSON_parse REALTIME_CHANNEL message) g) = clients g /\
  match JSON_parse message with
  | None =>
      emitted (after (on_message JSON_parse REALTIME_CHANNEL message) g) = emitted g /\
      ws_console (after (on_message JSON_parse REALTIME_CHANNEL message) g)
        = ws_console g ++ [ParseFailed SyntaxError] /\
      List.filter is_error (ws_console (after (on_message JSON_parse REALTIME_CHANNEL message) g))
        = List.filter is_error (ws_console g) ++ [ParseFailed SyntaxError]
  | Some payload =>
      emitted (after (on_message JSON_parse REALTIME_CHANNEL message) g)
        = emitted g ++ List.map (fun c => (c, "priceUpdate", payload)) (clients g)
  end.
Proof.
  unfold completion, after, on_message. simpl String.eqb. cbv iota.
  unfold try_catch, bind, parse.
  destruct (JSON_parse message) as [payload|]; simpl.
  - destruct payload; simpl; auto.
  - rewrite List.filter_app. simpl. auto.
Qed.

(** A message on any other channel changes nothing. *)
Lemma on_message_other_channel
    (JSON_parse : string -> option Json) (channel message : string) (g : Gateway) :
  channel <> REALTIME_CHANNEL ->
  on_message JSON_parse channel message g = (Return tt, g).
Proof.
  intros Hne. unfold on_message.
  destruct (String.eqb channel REALTIME_CHANNEL) eqn:E; [|reflexivity].
  apply String.eqb_eq in E. contradiction.
Qed.

(** * Further properties *)

(** ** The retrying fetch client, any upstream *)

Section Trace.

Variable url : string.
Variable retries : nat.

(** Every run of the loop: [n] requests, the first [n - 1] of them
    rejected with a transient status and followed by a warning and a
    timer, the last one deciding the result. *)
Lemma loop_trace (fuel : nat) :
  forall (i : nat) (w : World),
    i + fuel = retries -> 0 < fuel ->
    exists n logs,
      1 <= n <= fuel /\
      requests (after (fetchWithRetry_loop url retries i fuel) w)
        = requests w ++ replicate n url /\
      timeouts (after (fetchWithRetry_loop url retries i fuel) w)
        = timeouts w ++ delays_from w i (n - 1) /\
      random_calls (after (fetchWithRetry_loop url retries i fuel) w)
        = random_calls w + (n - 1) /\
      console (after (fetchWithRetry_loop url retries i fuel) w) = console w ++ logs /\
      length logs = n - 1 /\ Forall (fun l => is_warning l = true) logs /\
      (forall k, k < n - 1 -> exists s,
          http w url (count_occ string_dec (requests w) url + k) = Reject (Some s) /\
          transient_status s) /\
      match http w url (count_occ string_dec (requests w) url + (n - 1)) with
      | Response d => completion (fetchWithRetry_loop url retries i fuel) w = Return d
      | Reject r =>
          completion (fetchWithRetry_loop url retries i fuel) w = Throw (AxiosError r) /\
          (n = fuel \/ isTransientError (AxiosError r) = false)
      end.
Proof.
  induction fuel as [|f IH]; intros i w Hi Hpos; [lia|].
  destruct (http w url (count_occ string_dec (requests w) url)) as [d|r] eqn:Hh.
  - exists 1, []. unfold after, completion. rewrite (loop_success url retries i f w d Hh).
    simpl. rewrite !app_nil_r, !Nat.add_0_r, Hh.
    repeat split; try lia; auto.
  - destruct ((Z.of_nat i =? Z.of_nat retries - 1)%Z
              || negb (isTransientError (AxiosError r))) eqn:Hc.
    + exists 1, []. unfold after, completion. rewrite (loop_rethrow url retries i f w r Hh Hc).
      simpl fst. simpl snd. simpl Nat.sub. rewrite !app_nil_r, !Nat.add_0_r, Hh.
      split; [lia|]. split; [reflexivity|]. split; [reflexivity|]. split; [reflexivity|].
      split; [reflexivity|]. split; [reflexivity|]. split; [constructor|].
      split; [intros k Hk; lia|]. split; [reflexivity|].
      apply orb_true_iff in Hc. destruct Hc as [Hc|Hc].
      * left. apply Z.eqb_eq in Hc. lia.
      * right. now apply negb_true_iff in Hc.
    + apply orb_false_iff in Hc. destruct Hc as [Hlast Htr].
      apply Z.eqb_neq in Hlast. apply negb_false_iff in Htr.
      assert (Hf : 0 < f) by lia.
      assert (Hc : (Z.of_nat i =? Z.of_nat retries - 1)%Z
                   || negb (isTransientError (AxiosError r)) = false).
      { apply orb_false_iff. split; [now apply Z.eqb_neq | now apply negb_false_iff]. }
      set (w2 := retried url retries i (AxiosError r) w).
      destruct (IH (S i) w2) as (n & logs & Hn & Hreq & Htim & Hrand & Hcon & Hlen & Hwarn & Hprev & Hlastm);
        [lia | exact Hf |].
      exists (S n), (ApiRetry url (response_status (AxiosError r))
                       (backoff_delay i (random w (random_calls w))) (S i) retries :: logs).
      unfold after, completion in *. rewrite (loop_retry url retries i f w r Hh Hc).
      fold w2. rewrite Hreq, Htim, Hrand, Hcon.
      replace (S n - 1) with (S (n - 1)) by lia.
      split; [lia|].
      split; [unfold w2; simpl; now rewrite <- app_assoc|].
      split; [rewrite (delays_from_cons url retries w (AxiosError r)); fold w2;
              unfold w2 at 1; simpl; now rewrite <- app_assoc|].
      split; [unfold w2; simpl; lia|].
      split; [unfold w2; simpl; now rewrite <- app_assoc|].
      split; [simpl; lia|].
      split; [constructor; [reflexivity | exact Hwarn]|].
      split.
      * intros [|k] Hk.
        -- rewrite Nat.add_0_r, Hh. destruct r as [s|]; [|discriminate].
           exists s. split; [reflexivity | now apply transient_status_spec].
        -- destruct (Hprev k) as (s & Hs & Hts); [lia|]. exists s. split; [|exact Hts].
           unfold w2 in Hs. rewrite count_after_retried in Hs. simpl in Hs.
           now rewrite Nat.add_succ_r.
      * unfold w2 in Hlastm. rewrite count_after_retried in Hlastm. simpl http in Hlastm.
        replace (count_occ string_dec (requests w) url + S (n - 1))
          with (S (count_occ string_dec (requests w) url + (n - 1))) by lia.
        destruct (http w url (S (count_occ string_dec (requests w) url + (n - 1)))) as [d|r'].
        -- exact Hlastm.
        -- destruct Hlastm as [Hthrow Hor]. split; [exact Hthrow|].
           destruct Hor as [->|Hnt]; [now left | now right].
Qed.

End Trace.

(** X1. If the first [k] attempts are rejected with a transient
    status and attempt [k], still within [retries], gets a reply, then
    [fetchWithRetry] returns the data of that reply after [k + 1]
    requests and [k] waits. *)
Theorem fetchWithRetry_recovers (url : string) (retries k : nat) (w : World) (d : Body) :
  k < retries ->
  (forall j, j < k -> exists s,
      http w url (count_occ string_dec (requests w) url + j) = Reject (Some s) /\
      transient_status s) ->
  http w url (count_occ string_dec (requests w) url + k) = Response d ->
  completion (fetchWithRetry url retries) w = Return d /\
  requests (after (fetchWithRetry url retries) w) = requests w ++ replicate (S k) url /\
  length (timeouts (after (fetchWithRetry url retries) w)) = length (timeouts w) + k.
Proof.
  intros Hk Hfail Hok.
  destruct (loop_trace url retries retries 0 w) as
    (n & logs & Hn & Hreq & Htim & _ & _ & _ & _ & Hprev & Hlast); [lia | lia |].
  assert (Hnk : n - 1 = k).
  { destruct (Nat.lt_trichotomy (n - 1) k) as [Hlt | [Heq | Hgt]]; [|exact Heq|].
    - destruct (Hfail (n - 1) Hlt) as (s & Hs & Hts). rewrite Hs in Hlast.
      destruct Hlast as [_ [Hnr | Hnt]]; [lia|].
      apply transient_status_spec in Hts. congruence.
    - destruct (Hprev k Hgt) as (s & Hs & _). congruence. }
  rewrite Hnk in *. rewrite Hok in Hlast. unfold fetchWithRetry.
  replace n with (S k) in Hreq by lia.
  split; [exact Hlast | split; [exact Hreq|]].
  rewrite Htim, length_app. unfold delays_from. now rewrite length_map, length_seq.
Qed.

Lemma fetchWithRetry_recovers_witness :
  completion (fetchWithRetry "u" 3) (fresh_world (flaky_upstream 2 (BodyArray ["x"])) (1 # 4))
    = Return (BodyArray ["x"]) /\
  requests (after (fetchWithRetry "u" 3)
                  (fresh_world (flaky_upstream 2 (BodyArray ["x"])) (1 # 4)))
    = ["u"; "u"; "u"].
Proof.
  destruct (fetchWithRetry_recovers "u" 3 2
              (fresh_world (flaky_upstream 2 (BodyArray ["x"])) (1 # 4)) (BodyArray ["x"]))
    as (Hc & Hr & _).
  - lia.
  - intros j Hj. exists 503%Z. split; [|right; lia].
    simpl. unfold flaky_upstream. destruct j as [|[|j]]; [reflexivity | reflexivity | lia].
  - reflexivity.
  - split; [exact Hc | exact Hr].
Defined.

(** X2. Whatever the upstream does, [fetchWithRetry] issues at most
    [retries] requests (at least one when [retries] is positive), all
    for the url it was given; each request but the last is followed by
    one warning and one timer armed with a delay of at least 1000 ms;
    and it touches neither the Redis key space nor the broadcast
    channel. *)
Theorem fetchWithRetry_bounded (url : string) (retries : nat) (w : World) :
  (forall n, (0 <= random w n)%Q) ->
  exists (n : nat) (delays : list Js.Num) (logs : list LogLine),
    n <= retries /\ (0 < retries -> 1 <= n) /\
    requests (after (fetchWithRetry url retries) w) = requests w ++ replicate n url /\
    timeouts (after (fetchWithRetry url retries) w) = timeouts w ++ delays /\
    length delays = n - 1 /\
    Forall (at_least 1000) delays /\
    console (after (fetchWithRetry url retries) w) = console w ++ logs /\
    length logs = n - 1 /\
    Forall (fun l => is_warning l = true) logs /\
    store (after (fetchWithRetry url retries) w) = store w /\
    published (after (fetchWithRetry url retries) w) = published w.
Proof.
  intros Hrand.
  destruct (fetchWithRetry_frame url retries w) as (Hst & _ & _ & _ & _ & Hpub).
  destruct retries as [|r].
  - exists 0, [], []. unfold after. simpl. rewrite !app_nil_r.
    repeat split; auto; lia.
  - destruct (loop_trace url (S r) (S r) 0 w) as
      (n & logs & Hn & Hreq & Htim & _ & Hcon & Hlen & Hwarn & _ & _); [lia | lia |].
    exists n, (delays_from w 0 (n - 1)), logs. unfold fetchWithRetry.
    split; [lia|]. split; [lia|]. split; [exact Hreq|]. split; [exact Htim|].
    split; [unfold delays_from; now rewrite length_map, length_seq|].
    split.
    { unfold delays_from. apply List.Forall_forall. intros d Hd.
      apply in_map_iff in Hd. destruct Hd as (k & <- & _).
      apply backoff_delay_min, Hrand. }
    split; [exact Hcon|]. split; [exact Hlen|]. split; [exact Hwarn|].
    split; [exact Hst | exact Hpub].
Qed.

Lemma fetchWithRetry_bounded_witness :
  exists n,
    n <= 3 /\
    requests (after (fetchWithRetry "u" 3) (fresh_world (always_status 503) (1 # 4)))
      = replicate n "u".
Proof.
  destruct (fetchWithRetry_bounded "u" 3 (fresh_world (always_status 503) (1 # 4)))
    as (n & delays & logs & Hn & _ & Hreq & _).
  - intros m. discriminate.
  - exists n. split; [exact Hn | exact Hreq].
Defined.

Lemma backoff_delay_first_two (r : Q) :
  (0 <= r)%Q -> (r < 1)%Q ->
  (exists d, backoff_delay 0 r = Fin d /\ (0 <= d <= 1500)%Q) /\
  (exists d, backoff_delay 1 r = Fin d /\ (0 <= d <= 2500)%Q).
Proof.
  intros H0 H1. destruct (jitter_at_most r H0 H1) as (j & Hj & Hj0 & Hj1).
  unfold backoff_delay. rewrite Hj.
  assert (E0 : Js.mul (Js.pow_2 0) (Fin 1000) = Fin 1000) by (vm_compute; reflexivity).
  assert (E1 : Js.mul (Js.pow_2 1) (Fin 1000) = Fin 2000) by (vm_compute; reflexivity).
  rewrite E0, E1. simpl Js.add. split.
  - apply (round_at_most 1500); [lra | lra | reflexivity].
  - apply (round_at_most 2500); [lra | lra | reflexivity].
Qed.

(** X3. With the default of three attempts, the delays of the timers
    of one call are finite and add up to at most four seconds, whatever
    the upstream answers and whatever the draws. Four seconds are
    reached: with both draws at the last double below 1 the delays are
    1500 and 2500, the sums being rounded. *)
Theorem fetchWithRetry_default_wait_budget (url : string) (w : World) :
  (forall n, (0 <= random w n)%Q /\ (random w n < 1)%Q) ->
  exists delays t,
    timeouts (after (fetchWithRetry url DEFAULT_RETRIES) w) = timeouts w ++ delays /\
    total_delay delays = Some t /\ (0 <= t)%Q /\ (t <= 4000)%Q.
Proof.
  intros Hrand.
  destruct (loop_trace url DEFAULT_RETRIES DEFAULT_RETRIES 0 w) as
    (n & logs & Hn & _ & Htim & _); [reflexivity | unfold DEFAULT_RETRIES; lia |].
  unfold DEFAULT_RETRIES in Hn.
  destruct (Hrand (random_calls w + 0)) as [Ha0 Ha1].
  destruct (Hrand (random_calls w + 1)) as [Hb0 Hb1].
  destruct (backoff_delay_first_two _ Ha0 Ha1) as [(d0 & Hd0 & Hd0a & Hd0b) _].
  destruct (backoff_delay_first_two _ Hb0 Hb1) as [_ (d1 & Hd1 & Hd1a & Hd1b)].
  exists (delays_from w 0 (n - 1)).
  assert (Hcases : n - 1 = 0 \/ n - 1 = 1 \/ n - 1 = 2) by lia.
  destruct Hcases as [E | [E | E]]; rewrite E in *; unfold delays_from; simpl List.map.
  - exists 0%Q. split; [exact Htim|]. split; [reflexivity|]. split; discriminate.
  - exists (d0 + 0)%Q. split; [exact Htim|]. rewrite Hd0. split; [reflexivity|]. split; lra.
  - exists (d0 + (d1 + 0))%Q. split; [exact Htim|]. simpl Nat.add. rewrite Hd0, Hd1.
    split; [reflexivity|]. split; lra.
Qed.

Lemma fetchWithRetry_default_wait_budget_witness :
  timeouts (after (fetchWithRetry "u" DEFAULT_RETRIES)
                  (fresh_world (always_status 503) (1 - (1 # 2 ^ 53))))
    = [Fin 1500; Fin 2500] /\
  exists delays t,
    timeouts (after (fetchWithRetry "u" DEFAULT_RETRIES)
                    (fresh_world (always_status 503) (1 - (1 # 2 ^ 53)))) = delays /\
    total_delay delays = Some t /\ (t <= 4000)%Q.
Proof.
  split; [vm_compute; reflexivity|].
  destruct (fetchWithRetry_default_wait_budget "u"
              (fresh_world (always_status 503) (1 - (1 # 2 ^ 53))))
    as (delays & t & Ht & Hsum & _ & Hle).
  - intros n. split; [discriminate | reflexivity].
  - exists delays, t. split; [exact Ht | split; [exact Hsum | exact Hle]].
Defined.

(** ** The cache store *)

Lemma live_before (t e : Q) (doc : Stored) : (t < e)%Q -> live t (doc, e) = true.
Proof.
  intros H. unfold live, Js.Qlt_bool. simpl.
  destruct (Qle_bool e t) eqn:E; [|reflexivity].
  apply Qle_bool_iff in E. lra.
Qed.

Lemma live_after (t e : Q) (doc : Stored) : (e <= t)%Q -> live t (doc, e) = false.
Proof.
  intros H. unfold live, Js.Qlt_bool. simpl.
  apply Qle_bool_iff in H. now rewrite H.
Qed.

(** X4. A document written with [setJson] is read back by [getJson]
    at every instant before its expiry, [ttl] seconds (30 when none is
    given) after the write, and reads as null from then on, whatever
    was stored under the key before; reads of any other key are not
    affected. *)
Theorem setJson_getJson_roundtrip
    (key : string) (doc : Stored) (ttl : option Z) (w : World) (t : Q) :
  redis_up w (redis_cmds w) = true ->
  redis_up w (S (redis_cmds w)) = true ->
  (0 < default CACHE_TTL_SECONDS ttl)%Z ->
  ((t < now w + inject_Z (default 30%Z ttl * 1000))%Q ->
   completion (getJson key) (with_now t (after (setJson key doc ttl) w)) = Return (Some doc)) /\
  ((now w + inject_Z (default 30%Z ttl * 1000) <= t)%Q ->
   completion (getJson key) (with_now t (after (setJson key doc ttl) w)) = Return None) /\
  (forall other, other <> key ->
     completion (getJson other) (with_now t (after (setJson key doc ttl) w))
     = Return (read_at t other w)).
Proof.
  intros Hup1 Hup2 _.
  assert (Hset : after (setJson key doc ttl) w
                 = with_store (fun s => <[key := (doc, (now w + inject_Z (default 30%Z ttl * 1000))%Q)]> s)
                              (next_redis_cmd w)).
  { unfold after, setJson, redis_set_ex. now rewrite Hup1. }
  rewrite Hset. unfold completion, getJson, redis_get. simpl. rewrite Hup2.
  split; [|split].
  - intros Ht. rewrite lookup_insert_eq. now rewrite (live_before _ _ _ Ht).
  - intros Ht. rewrite lookup_insert_eq. now rewrite (live_after _ _ _ Ht).
  - intros other Hne. rewrite lookup_insert_ne by congruence.
    unfold read_at. now destruct (store w !! other).
Qed.

Lemma setJson_getJson_roundtrip_witness :
  completion (getJson "k")
             (with_now 59999%Q
                (after (setJson "k" (STicker (Some 1%Q)) (Some 60%Z))
                       (fresh_world (always_status 404) (1 # 4))))
    = Return (Some (STicker (Some 1%Q))) /\
  completion (getJson "k")
             (with_now 60000%Q
                (after (setJson "k" (STicker (Some 1%Q)) (Some 60%Z))
                       (fresh_world (always_status 404) (1 # 4))))
    = Return None.
Proof.
  destruct (setJson_getJson_roundtrip "k" (STicker (Some 1%Q)) (Some 60%Z)
              (fresh_world (always_status 404) (1 # 4)) 59999%Q)
    as (Hlive & _ & _); [reflexivity | reflexivity | reflexivity |].
  destruct (setJson_getJson_roundtrip "k" (STicker (Some 1%Q)) (Some 60%Z)
              (fresh_world (always_status 404) (1 # 4)) 60000%Q)
    as (_ & Hgone & _); [reflexivity | reflexivity | reflexivity |].
  split; [apply Hlive; reflexivity | apply Hgone; apply Qle_bool_iff; reflexivity].
Defined.

(** ** The query service, every request *)

Lemma key_of_not_catalog (query : Query) : key_of query <> TOKEN_LIST_KEY.
Proof. unfold key_of, cache_key, TOKEN_LIST_KEY. cbv [String.append]. congruence. Qed.

Lemma key_of_not_ticker (query : Query) : key_of query <> TICKER_KEY.
Proof. unfold key_of, cache_key, TOKEN_LIST_KEY, TICKER_KEY. cbv [String.append]. congruence. Qed.

Lemma getJson_failed (key : string) (w : World) :
  redis_up w (redis_cmds w) = false ->
  getJson key w = (Throw RedisError, next_redis_cmd w).
Proof. intros Hup. unfold getJson, redis_get. now rewrite Hup. Qed.

Lemma setJson_failed (key : string) (doc : Stored) (ttl : option Z) (w : World) :
  redis_up w (redis_cmds w) = false ->
  setJson key doc ttl w = (Throw RedisError, next_redis_cmd w).
Proof. intros Hup. unfold setJson, redis_set_ex. now rewrite Hup. Qed.

Lemma setJson_done (key : string) (doc : Stored) (ttl : option Z) (w : World) :
  redis_up w (redis_cmds w) = true ->
  setJson key doc ttl w =
  (Return tt,
   with_store
     (fun s => <[key := (doc, (now w + inject_Z (default CACHE_TTL_SECONDS ttl * 1000))%Q)]> s)
     (next_redis_cmd w)).
Proof. intros Hup. unfold setJson, redis_set_ex. now rewrite Hup. Qed.

Section Paths.

Variable query : Query.
Variable w : World.

(** The seven paths through [getTokenList], each with its result. *)

Lemma path_cache_down :
  redis_up w (redis_cmds w) = false ->
  getTokenList query w =
  (Return (mkRes 500 (JsonError INTERNAL)), add_log (ListError RedisError) (next_redis_cmd w)).
Proof.
  intros U1. unfold getTokenList. fold (key_of query).
  erewrite try_catch_throw; [reflexivity|].
  apply bind_throw, getJson_failed, U1.
Qed.

Lemma path_hit (doc : Stored) :
  redis_up w (redis_cmds w) = true ->
  read_at (now w) (key_of query) w = Some doc ->
  getTokenList query w =
  (Return (mkRes 200 (spread_cached doc)),
   add_log (CacheHit (default "volume24h" (q_sortBy query))) (next_redis_cmd w)).
Proof.
  intros U1 R1. unfold getTokenList. fold (key_of query).
  erewrite try_catch_return; [reflexivity|].
  now rewrite (bind_return _ _ _ _ _ (getJson_served _ w U1)), R1.
Qed.

Lemma path_catalog_down :
  redis_up w (redis_cmds w) = true ->
  read_at (now w) (key_of query) w = None ->
  redis_up w (S (redis_cmds w)) = false ->
  getTokenList query w =
  (Return (mkRes 500 (JsonError INTERNAL)),
   add_log (ListError RedisError) (next_redis_cmd (next_redis_cmd w))).
Proof.
  intros U1 R1 U2. unfold getTokenList. fold (key_of query).
  erewrite try_catch_throw; [reflexivity|].
  rewrite (bind_return _ _ _ _ _ (getJson_served _ w U1)), R1.
  apply bind_throw, getJson_failed, U2.
Qed.

Lemma path_unavailable :
  redis_up w (redis_cmds w) = true ->
  read_at (now w) (key_of query) w = None ->
  redis_up w (S (redis_cmds w)) = true ->
  read_at (now w) TOKEN_LIST_KEY w = None \/
  read_at (now w) TOKEN_LIST_KEY w = Some (SCatalog []) ->
  getTokenList query w =
  (Return (mkRes 503 (JsonError UNAVAILABLE)), next_redis_cmd (next_redis_cmd w)).
Proof.
  intros U1 R1 U2 R2. unfold getTokenList. fold (key_of query).
  erewrite try_catch_return; [reflexivity|].
  rewrite (bind_return _ _ _ _ _ (getJson_served _ w U1)), R1.
  rewrite (bind_return _ _ _ _ _ (getJson_served _ (next_redis_cmd w) U2)).
  change (read_at (now (next_redis_cmd w)) TOKEN_LIST_KEY (next_redis_cmd w))
    with (read_at (now w) TOKEN_LIST_KEY w).
  now destruct R2 as [-> | ->].
Qed.

Lemma path_not_a_list (doc : Stored) :
  redis_up w (redis_cmds w) = true ->
  read_at (now w) (key_of query) w = None ->
  redis_up w (S (redis_cmds w)) = true ->
  read_at (now w) TOKEN_LIST_KEY w = Some doc ->
  (forall l, doc <> SCatalog l) ->
  getTokenList query w =
  (Return (mkRes 500 (JsonError INTERNAL)),
   add_log (ListError (TypeError "fullList.sort is not a function"))
           (next_redis_cmd (next_redis_cmd w))).
Proof.
  intros U1 R1 U2 R2 Hdoc. unfold getTokenList. fold (key_of query).
  erewrite try_catch_throw; [reflexivity|].
  rewrite (bind_return _ _ _ _ _ (getJson_served _ w U1)), R1.
  rewrite (bind_return _ _ _ _ _ (getJson_served _ (next_redis_cmd w) U2)).
  change (read_at (now (next_redis_cmd w)) TOKEN_LIST_KEY (next_redis_cmd w))
    with (read_at (now w) TOKEN_LIST_KEY w).
  rewrite R2. destruct doc as [l|v|p]; [now destruct (Hdoc l) | reflexivity | reflexivity].
Qed.

Lemma path_computed (catalog : list TokenRecord) :
  redis_up w (redis_cmds w) = true ->
  read_at (now w) (key_of query) w = None ->
  redis_up w (S (redis_cmds w)) = true ->
  read_at (now w) TOKEN_LIST_KEY w = Some (SCatalog catalog) ->
  catalog <> [] ->
  redis_up w (S (S (redis_cmds w))) = true ->
  getTokenList query w =
  (Return (mkRes 200 (JsonView (page_view query catalog (now w)))),
   with_store
     (fun s => <[key_of query := (SView (page_view query catalog (now w)),
                                  (now w + inject_Z (CACHE_TTL * 1000))%Q)]> s)
     (next_redis_cmd (next_redis_cmd (next_redis_cmd w)))).
Proof.
  intros U1 R1 U2 R2 Hne U3. unfold getTokenList. fold (key_of query).
  erewrite try_catch_return; [reflexivity|].
  rewrite (bind_return _ _ _ _ _ (getJson_served _ w U1)), R1.
  rewrite (bind_return _ _ _ _ _ (getJson_served _ (next_redis_cmd w) U2)).
  change (read_at (now (next_redis_cmd w)) TOKEN_LIST_KEY (next_redis_cmd w))
    with (read_at (now w) TOKEN_LIST_KEY w).
  rewrite R2. destruct catalog as [|r catalog]; [congruence|].
  unfold bind, Date_now, setJson, redis_set_ex, ret. simpl redis_up. simpl redis_cmds.
  rewrite U3. reflexivity.
Qed.

Lemma path_write_down (catalog : list TokenRecord) :
  redis_up w (redis_cmds w) = true ->
  read_at (now w) (key_of query) w = None ->
  redis_up w (S (redis_cmds w)) = true ->
  read_at (now w) TOKEN_LIST_KEY w = Some (SCatalog catalog) ->
  catalog <> [] ->
  redis_up w (S (S (redis_cmds w))) = false ->
  getTokenList query w =
  (Return (mkRes 500 (JsonError INTERNAL)),
   add_log (ListError RedisError) (next_redis_cmd (next_redis_cmd (next_redis_cmd w)))).
Proof.
  intros U1 R1 U2 R2 Hne U3. unfold getTokenList. fold (key_of query).
  erewrite try_catch_throw; [reflexivity|].
  rewrite (bind_return _ _ _ _ _ (getJson_served _ w U1)), R1.
  rewrite (bind_return _ _ _ _ _ (getJson_served _ (next_redis_cmd w) U2)).
  change (read_at (now (next_redis_cmd w)) TOKEN_LIST_KEY (next_redis_cmd w))
    with (read_at (now w) TOKEN_LIST_KEY w).
  rewrite R2. destruct catalog as [|r catalog]; [congruence|].
  unfold bind, Date_now, setJson, redis_set_ex, ret. simpl redis_up. simpl redis_cmds.
  rewrite U3. reflexivity.
Qed.

End Paths.

(** Every way a request can go: an answer 200, 503 or 500, with an
    error line exactly for 500, and the key space changed at most under
    the key of the query. *)
Lemma getTokenList_outcome (query : Query) (w : World) :
  exists res w',
    getTokenList query w = (Return res, w') /\
    handler_frame (key_of query) w w' /\
    ((status res = 200 /\ console w' = console w ++ [CacheHit (default "volume24h" (q_sortBy query))]
      /\ store w' = store w) \/
     (status res = 200 /\ console w' = console w /\
      exists catalog, body res = JsonView (page_view query catalog (now w))) \/
     (status res = 503 /\ body res = JsonError UNAVAILABLE /\
      console w' = console w /\ store w' = store w) \/
     (status res = 500 /\ body res = JsonError INTERNAL /\ store w' = store w /\
      exists e, console w' = console w ++ [ListError e])).
Proof.
  assert (Hframe : forall w1 : World,
             store w1 = store w -> published w1 = published w -> requests w1 = requests w ->
             timeouts w1 = timeouts w -> now w1 = now w ->
             handler_frame (key_of query) w w1).
  { intros w1 Hs Hp Hr Ht Hn. unfold handler_frame. rewrite Hs. auto. }
  destruct (redis_up w (redis_cmds w)) eqn:U1.
  2:{ eexists. eexists. split; [apply path_cache_down, U1|].
      split; [now apply Hframe|]. right. right. right. simpl. eauto 10. }
  destruct (read_at (now w) (key_of query) w) as [doc|] eqn:R1.
  { eexists. eexists. split; [apply (path_hit query w doc U1 R1)|].
    split; [now apply Hframe|]. left. simpl. auto. }
  destruct (redis_up w (S (redis_cmds w))) eqn:U2.
  2:{ eexists. eexists. split; [apply (path_catalog_down query w U1 R1 U2)|].
      split; [now apply Hframe|]. right. right. right. simpl. eauto 10. }
  destruct (read_at (now w) TOKEN_LIST_KEY w) as [doc|] eqn:R2.
  2:{ eexists. eexists. split; [apply (path_unavailable query w U1 R1 U2); now left|].
      split; [now apply Hframe|]. right. right. left. simpl. auto. }
  destruct doc as [[|r l]|v|p].
  - eexists. eexists. split; [apply (path_unavailable query w U1 R1 U2); now right|].
    split; [now apply Hframe|]. right. right. left. simpl. auto.
  - destruct (redis_up w (S (S (redis_cmds w)))) eqn:U3.
    + eexists. eexists.
      split; [apply (path_computed query w (r :: l) U1 R1 U2 R2); [discriminate | exact U3]|].
      split.
      * unfold handler_frame. simpl. repeat split; auto.
        intros k Hk. now rewrite lookup_insert_ne by congruence.
      * right. left. simpl. eauto.
    + eexists. eexists.
      split; [apply (path_write_down query w (r :: l) U1 R1 U2 R2); [discriminate | exact U3]|].
      split; [now apply Hframe|]. right. right. right. simpl. eauto 10.
  - eexists. eexists.
    split; [apply (path_not_a_list query w (SView v) U1 R1 U2 R2); discriminate|].
    split; [now apply Hframe|]. right. right. right. simpl. eauto 10.
  - eexists. eexists.
    split; [apply (path_not_a_list query w (STicker p) U1 R1 U2 R2); discriminate|].
    split; [now apply Hframe|]. right. right. right. simpl. eauto 10.
Qed.

Lemma error_lines_app (w : World) (l : LogLine) (lines : list LogLine) :
  console w = lines ++ [l] ->
  error_lines w =
  List.filter (fun l => match level l with ERROR => true | _ => false end) lines
  ++ (match level l with ERROR => [l] | _ => [] end).
Proof.
  intros H. unfold error_lines. rewrite H, List.filter_app. simpl.
  now destruct (level l).
Qed.

(** X5. [getTokenList] answers every request: it never rejects, and the
    status is 200, 503 with the try-again body, or 500 with the
    internal-error body. One [console.error] line is written exactly
    when the status is 500. *)
Theorem getTokenList_always_answers (query : Query) (w : World) :
  exists res,
    completion (getTokenList query) w = Return res /\
    ((status res = 200 /\
      error_lines (after (getTokenList query) w) = error_lines w) \/
     (status res = 503 /\
      body res = JsonError "Token list is currently being aggregated. Try again shortly." /\
      error_lines (after (getTokenList query) w) = error_lines w) \/
     (status res = 500 /\
      body res = JsonError "Internal server error during list retrieval." /\
      exists e, error_lines (after (getTokenList query) w) = error_lines w ++ [ListError e])).
Proof.
  destruct (getTokenList_outcome query w) as (res & w' & Hrun & _ & Hcases).
  exists res. unfold completion, after. rewrite Hrun. simpl. split; [reflexivity|].
  destruct Hcases as [(Hs & Hc & _) | [(Hs & Hc & _) | [(Hs & Hb & Hc & _) | (Hs & Hb & _ & e & Hc)]]].
  - left. split; [exact Hs|]. now rewrite (error_lines_app w' _ _ Hc), app_nil_r.
  - left. split; [exact Hs|]. unfold error_lines. now rewrite Hc.
  - right. left. repeat split; auto. unfold error_lines. now rewrite Hc.
  - right. right. repeat split; auto. exists e. now rewrite (error_lines_app w' _ _ Hc).
Qed.

(** X6. A request changes the key space at most under its own cache
    key: the catalog, the ticker state and every other view are left as
    they were; and it issues no upstream request, arms no timer and
    publishes nothing. *)
Theorem getTokenList_writes_only_its_key (query : Query) (w : World) :
  (forall k, k <> key_of query ->
     store (after (getTokenList query) w) !! k = store w !! k) /\
  store (after (getTokenList query) w) !! TOKEN_LIST_KEY = store w !! TOKEN_LIST_KEY /\
  store (after (getTokenList query) w) !! TICKER_KEY = store w !! TICKER_KEY /\
  requests (after (getTokenList query) w) = requests w /\
  timeouts (after (getTokenList query) w) = timeouts w /\
  published (after (getTokenList query) w) = published w.
Proof.
  destruct (getTokenList_outcome query w) as (res & w' & Hrun & (Hk & Hp & Hr & Ht & _) & _).
  unfold after. rewrite Hrun. simpl.
  split; [exact Hk|].
  split; [apply Hk; intros H; symmetry in H; now apply key_of_not_catalog in H|].
  split; [apply Hk; intros H; symmetry in H; now apply key_of_not_ticker in H|].
  auto.
Qed.

(** X7. While Redis serves no command, every request is answered 500
    with the internal-error body after one failed read; the error is
    logged and nothing else happens. *)
Theorem getTokenList_cache_unreachable (query : Query) (w : World) :
  (forall n, redis_up w n = false) ->
  completion (getTokenList query) w
    = Return (mkRes 500 (JsonError "Internal server error during list retrieval.")) /\
  console (after (getTokenList query) w) = console w ++ [ListError RedisError] /\
  redis_cmds (after (getTokenList query) w) = S (redis_cmds w) /\
  store (after (getTokenList query) w) = store w.
Proof.
  intros Hdown. unfold completion, after.
  rewrite (path_cache_down query w (Hdown _)). simpl. auto.
Qed.

Lemma getTokenList_cache_unreachable_witness :
  completion (getTokenList plain_query) (redis_down_world (always_status 404) (1 # 4))
    = Return (mkRes 500 (JsonError "Internal server error during list retrieval.")).
Proof.
  apply (getTokenList_cache_unreachable plain_query
           (redis_down_world (always_status 404) (1 # 4))).
  intros n. reflexivity.
Defined.

(** X8. When the page has been computed from a readable catalog but the
    write of the view is not served, the request is answered 500, not
    with the page, and no view is cached. *)
Theorem getTokenList_write_failure (query : Query) (w : World) (catalog : list TokenRecord) :
  redis_up w (redis_cmds w) = true ->
  redis_up w (S (redis_cmds w)) = true ->
  redis_up w (S (S (redis_cmds w))) = false ->
  read_at (now w) (key_of query) w = None ->
  read_at (now w) TOKEN_LIST_KEY w = Some (SCatalog catalog) ->
  catalog <> [] ->
  completion (getTokenList query) w
    = Return (mkRes 500 (JsonError "Internal server error during list retrieval.")) /\
  console (after (getTokenList query) w) = console w ++ [ListError RedisError] /\
  store (after (getTokenList query) w) = store w.
Proof.
  intros U1 U2 U3 R1 R2 Hne. unfold completion, after.
  rewrite (path_write_down query w catalog U1 R1 U2 R2 Hne U3). simpl. auto.
Qed.

Lemma getTokenList_write_failure_witness :
  completion (getTokenList plain_query) write_down_world
    = Return (mkRes 500 (JsonError "Internal server error during list retrieval.")) /\
  store (after (getTokenList plain_query) write_down_world) = store write_down_world.
Proof.
  destruct (getTokenList_write_failure plain_query write_down_world
              (mergeAndCleanTokenData [])) as (Hc & _ & Hs);
    [reflexivity | reflexivity | reflexivity | reflexivity | reflexivity | discriminate |].
  split; [exact Hc | exact Hs].
Defined.

(** The view computed on a miss, and where it is kept. *)
Lemma computed_view_is_cached (query : Query) (w : World) (catalog : list TokenRecord) :
  redis_up w (redis_cmds w) = true ->
  redis_up w (S (redis_cmds w)) = true ->
  redis_up w (S (S (redis_cmds w))) = true ->
  read_at (now w) (key_of query) w = None ->
  read_at (now w) TOKEN_LIST_KEY w = Some (SCatalog catalog) ->
  catalog <> [] ->
  completion (getTokenList query) w
    = Return (mkRes 200 (JsonView (page_view query catalog (now w)))) /\
  (forall t, (t < now w + 30000)%Q ->
     read_at t (key_of query) (after (getTokenList query) w)
     = Some (SView (page_view query catalog (now w)))) /\
  (forall t, (now w + 30000 <= t)%Q ->
     read_at t (key_of query) (after (getTokenList query) w) = None).
Proof.
  intros U1 U2 U3 R1 R2 Hne. unfold completion, after.
  rewrite (path_computed query w catalog U1 R1 U2 R2 Hne U3). simpl fst. simpl snd.
  split; [reflexivity|]. unfold read_at. simpl store. rewrite lookup_insert_eq.
  change (inject_Z (CACHE_TTL * 1000)) with 30000%Q.
  split; intros t Ht.
  - now rewrite (live_before _ _ _ Ht).
  - now rewrite (live_after _ _ _ Ht).
Qed.

(** X9. On a cache miss with a readable, non-empty catalog and Redis
    serving, the request is answered 200 with the computed view, and
    that view is stored under the key of the query: it is read there
    until 30 seconds after the request and not from then on. *)
Theorem getTokenList_miss_caches_view (query : Query) (w : World) (catalog : list TokenRecord) :
  redis_up w (redis_cmds w) = true ->
  redis_up w (S (redis_cmds w)) = true ->
  redis_up w (S (S (redis_cmds w))) = true ->
  read_at (now w) (key_of query) w = None ->
  read_at (now w) TOKEN_LIST_KEY w = Some (SCatalog catalog) ->
  catalog <> [] ->
  completion (getTokenList query) w
    = Return (mkRes 200 (JsonView (page_view query catalog (now w)))) /\
  (forall t, (t < now w + 30000)%Q ->
     read_at t (key_of query) (after (getTokenList query) w)
     = Some (SView (page_view query catalog (now w)))) /\
  (forall t, (now w + 30000 <= t)%Q ->
     read_at t (key_of query) (after (getTokenList query) w) = None).
Proof. apply computed_view_is_cached. Qed.

Lemma getTokenList_miss_caches_view_witness :
  completion (getTokenList plain_query) catalog_world
    = Return (mkRes 200 (JsonView (page_view plain_query (mergeAndCleanTokenData []) 0%Q))) /\
  read_at 29999%Q (key_of plain_query) (after (getTokenList plain_query) catalog_world)
    = Some (SView (page_view plain_query (mergeAndCleanTokenData []) 0%Q)).
Proof.
  destruct (getTokenList_miss_caches_view plain_query catalog_world
              (mergeAndCleanTokenData [])) as (Hc & Hlive & _);
    [reflexivity | reflexivity | reflexivity | reflexivity | reflexivity | discriminate |].
  split; [exact Hc | apply Hlive; reflexivity].
Defined.

(** X10. The same request repeated at any instant of the 30 seconds
    that follow a computed answer gets the data, the pagination and the
    cacheTime of the first answer with [cached] true; the repeat leaves
    the key space, and so the expiry of the view, as it was. *)
Theorem getTokenList_repeat_is_cached
    (query : Query) (w : World) (catalog : list TokenRecord) (t : Q) :
  (forall n, redis_up w n = true) ->
  read_at (now w) (key_of query) w = None ->
  read_at (now w) TOKEN_LIST_KEY w = Some (SCatalog catalog) ->
  catalog <> [] ->
  (now w <= t)%Q -> (t < now w + 30000)%Q ->
  completion (getTokenList query) (with_now t (after (getTokenList query) w))
    = Return (mkRes 200 (JsonView (set_cached (page_view query catalog (now w))))) /\
  store (after (getTokenList query) (with_now t (after (getTokenList query) w)))
    = store (after (getTokenList query) w).
Proof.
  intros Hup R1 R2 Hne _ Ht.
  destruct (computed_view_is_cached query w catalog (Hup _) (Hup _) (Hup _) R1 R2 Hne)
    as (_ & Hlive & _).
  set (w1 := after (getTokenList query) w) in *.
  assert (Hu : redis_up (with_now t w1) (redis_cmds (with_now t w1)) = true).
  { unfold w1, after. rewrite (path_computed query w catalog (Hup _) R1 (Hup _) R2 Hne (Hup _)).
    apply Hup. }
  pose proof (path_hit query (with_now t w1) _ Hu (Hlive t Ht)) as Hhit.
  unfold completion, after at 1. rewrite Hhit. simpl. auto.
Qed.

Lemma getTokenList_repeat_is_cached_witness :
  completion (getTokenList plain_query)
             (with_now 29999%Q (after (getTokenList plain_query) catalog_world))
    = Return (mkRes 200
                (JsonView (set_cached (page_view plain_query (mergeAndCleanTokenData []) 0%Q)))).
Proof.
  destruct (getTokenList_repeat_is_cached plain_query catalog_world
              (mergeAndCleanTokenData []) 29999%Q) as (Hc & _);
    [intros n; reflexivity | reflexivity | reflexivity | discriminate
    | apply Qle_bool_iff; reflexivity | reflexivity |].
  exact Hc.
Defined.

(** ** Cursors *)

Lemma digits_of_uint_acc (d : Decimal.uint) :
  forall acc : positive,
    Builtin.digits (NilEmpty.string_of_uint d) (Some (Z.pos acc))
    = Some (Z.pos (Pos.of_uint_acc d acc)).
Proof.
  induction d; intros acc; simpl; [reflexivity|..];
    unfold Builtin.digit_of; simpl;
    match goal with
    | |- Builtin.digits _ (Some ?z) = _ =>
        match goal with
        | |- _ = Some (Z.pos (Pos.of_uint_acc _ ?p)) =>
            replace z with (Z.pos p) by lia
        end
    end; apply IHd.
Qed.

Lemma digits_of_uint (d : Decimal.uint) :
  Builtin.digits (NilEmpty.string_of_uint d) (Some 0%Z) = Some (Z.of_N (Pos.of_uint d)).
Proof.
  induction d; simpl; [reflexivity | exact IHd |..];
    unfold Builtin.digit_of; simpl;
    match goal with
    | |- Builtin.digits _ (Some ?z) = _ =>
        let z' := eval vm_compute in z in change z with z'
    end; apply digits_of_uint_acc.
Qed.

Lemma digits_of_to_uint (p : positive) :
  Builtin.digits (NilEmpty.string_of_uint (Pos.to_uint p)) None = Some (Z.pos p).
Proof.
  pose proof (DecimalPos.Unsigned.of_to p) as Hof.
  pose proof (DecimalPos.Unsigned.to_uint_nonnil p) as Hnil.
  destruct (Pos.to_uint p) as [|d|d|d|d|d|d|d|d|d|d] eqn:E; [congruence|..];
    simpl; unfold Builtin.digit_of; simpl;
    match goal with
    | |- Builtin.digits _ (Some ?z) = _ =>
        let z' := eval vm_compute in z in change z with z'
    end;
    first [ rewrite digits_of_uint | rewrite digits_of_uint_acc ];
    simpl in Hof; rewrite ?Hof; try reflexivity; injection Hof as ->; reflexivity.
Qed.

Lemma string_of_to_uint_head (p : positive) :
  exists c r,
    NilZero.string_of_uint (Pos.to_uint p) = String c r /\
    NilEmpty.string_of_uint (Pos.to_uint p) = String c r /\
    Builtin.is_ws c = false /\ c <> "-"%char /\ c <> "+"%char.
Proof.
  pose proof (DecimalPos.Unsigned.to_uint_nonnil p) as Hnil.
  destruct (Pos.to_uint p) as [|d|d|d|d|d|d|d|d|d|d]; [congruence|..];
    simpl; eexists; eexists;
    (split; [reflexivity | split; [reflexivity | split; [reflexivity | split; discriminate]]]).
Qed.

(** An integer printed by [toString] is read back by [parseInt]. *)
Lemma parseInt_toString (n : Z) : Builtin.parseInt (Builtin.toString n) = Some n.
Proof.
  destruct n as [|p|p]; [reflexivity|..]; unfold Builtin.toString; simpl Z.to_int;
    destruct (string_of_to_uint_head p) as (c & r & Hz & He & Hws & Hm & Hp).
  - simpl NilZero.string_of_int. pose proof (digits_of_to_uint p) as Hd.
    rewrite Hz. rewrite He in Hd. unfold Builtin.parseInt. simpl Builtin.skip_ws. rewrite Hws.
    destruct c as [[|] [|] [|] [|] [|] [|] [|] [|]]; try exact Hd; congruence.
  - simpl NilZero.string_of_int. unfold Builtin.parseInt.
    change (Builtin.skip_ws (String "-" (NilZero.string_of_uint (Pos.to_uint p))))
      with (String "-" (NilZero.string_of_uint (Pos.to_uint p))).
    cbv iota. rewrite Hz, <- He, digits_of_to_uint. reflexivity.
Qed.

Lemma toString_truthy (n : Z) : Builtin.truthy_string (Builtin.toString n) = true.
Proof.
  destruct n as [|p|p]; [reflexivity|..]; unfold Builtin.toString; simpl Z.to_int.
  - destruct (string_of_to_uint_head p) as (c & r & Hz & _). simpl NilZero.string_of_int.
    now rewrite Hz.
  - reflexivity.
Qed.

(** ** The page of a view *)

Lemma sorted_for_length (query : Query) (catalog : list TokenRecord) :
  length (sorted_for query catalog) = length catalog.
Proof. apply sort_length. Qed.

Lemma page_view_parts (query : Query) (catalog : list TokenRecord) (t : Q) :
  page_view query catalog t =
  mkView (Builtin.slice (sorted_for query catalog) (start_of query)
                        (Builtin.add (start_of query) (limit_of query)))
         (mkPagination (limit_of query)
            (if Builtin.lt (Builtin.add (start_of query) (limit_of query))
                           (Z.of_nat (length (sorted_for query catalog)))
             then Builtin.toString <$> Builtin.add (start_of query) (limit_of query)
             else None))
         false t.
Proof. reflexivity. Qed.

(** The records, the limit and the cursor of a view. *)
Lemma page_view_slice
    (query : Query) (catalog : list TokenRecord) (t : Q) (L s : Z) :
  limit_of query = Some L -> start_of query = Some s ->
  (0 <= L)%Z -> (0 <= s)%Z ->
  data (page_view query catalog t)
    = take (Z.to_nat L) (drop (Z.to_nat s) (sorted_for query catalog)) /\
  length (data (page_view query catalog t)) <= Z.to_nat L /\
  limit (pagination (page_view query catalog t)) = Some L /\
  ((s + L < Z.of_nat (length catalog))%Z ->
   nextCursor (pagination (page_view query catalog t)) = Some (Builtin.toString (s + L))) /\
  ((Z.of_nat (length catalog) <= s + L)%Z ->
   nextCursor (pagination (page_view query catalog t)) = None).
Proof.
  intros HL Hs HL0 Hs0. rewrite page_view_parts, HL, Hs. simpl.
  rewrite sorted_for_length, slice_from_to by lia.
  replace (s + L - s)%Z with L by lia.
  split; [reflexivity|]. split; [rewrite length_take; lia|]. split; [reflexivity|].
  split; intros H.
  - destruct (s + L <? Z.of_nat (length catalog))%Z eqn:E; [reflexivity|].
    apply Z.ltb_ge in E. lia.
  - destruct (s + L <? Z.of_nat (length catalog))%Z eqn:E; [|reflexivity].
    apply Z.ltb_lt in E. lia.
Qed.

(** X11. For a limit [L >= 0] and a start offset [s >= 0], the view
    holds the records [s .. s+L) of the sorted catalog, so at most [L]
    of them; its nextCursor is [s + L] printed in decimal when records
    remain after the page, and null when none does. *)
Theorem page_view_window
    (query : Query) (catalog : list TokenRecord) (t : Q) (L s : Z) :
  limit_of query = Some L -> start_of query = Some s ->
  (0 <= L)%Z -> (0 <= s)%Z ->
  data (page_view query catalog t)
    = take (Z.to_nat L) (drop (Z.to_nat s) (sorted_for query catalog)) /\
  length (data (page_view query catalog t)) <= Z.to_nat L /\
  limit (pagination (page_view query catalog t)) = Some L /\
  ((s + L < Z.of_nat (length catalog))%Z ->
   nextCursor (pagination (page_view query catalog t)) = Some (Builtin.toString (s + L))) /\
  ((Z.of_nat (length catalog) <= s + L)%Z ->
   nextCursor (pagination (page_view query catalog t)) = None).
Proof. apply page_view_slice. Qed.

Lemma page_view_window_witness :
  ids (data (page_view page2 (mergeAndCleanTokenData []) 0%Q)) = ["BONK"] /\
  nextCursor (pagination (page_view page2 (mergeAndCleanTokenData []) 0%Q)) = Some "2".
Proof.
  destruct (page_view_window page2 (mergeAndCleanTokenData []) 0%Q 1%Z 1%Z)
    as (Hd & _ & _ & Hnext & _); [reflexivity | reflexivity | lia | lia |].
  split; [now rewrite Hd | now rewrite Hnext by (simpl; lia)].
Defined.

(** X12. With no cursor and a limit of at least the size of the
    catalog, the view holds every record of the catalog exactly once,
    in descending order of the sort field, and carries no nextCursor. *)
Theorem page_view_full_listing
    (query : Query) (catalog : list TokenRecord) (t : Q) (L : Z) :
  limit_of query = Some L -> start_of query = Some 0%Z ->
  (Z.of_nat (length catalog) <= L)%Z ->
  Permutation (data (page_view query catalog t)) catalog /\
  StronglySorted
    (fun a b => (sort_key (default "volume24h" (q_sortBy query)) b
                 <= sort_key (default "volume24h" (q_sortBy query)) a)%Q)
    (data (page_view query catalog t)) /\
  nextCursor (pagination (page_view query catalog t)) = None.
Proof.
  intros HL Hs HM.
  destruct (page_view_slice query catalog t L 0 HL Hs) as (Hd & _ & _ & _ & Hnext); [lia | lia |].
  rewrite Hd. change (Z.to_nat 0) with 0. rewrite drop_0.
  pose proof (sorted_for_length query catalog) as Hlen.
  rewrite take_ge by lia.
  split; [apply sort_perm|]. split; [apply sort_desc|]. apply Hnext. lia.
Qed.

Lemma page_view_full_listing_witness :
  Permutation (data (page_view plain_query (mergeAndCleanTokenData []) 0%Q))
              (mergeAndCleanTokenData []) /\
  nextCursor (pagination (page_view plain_query (mergeAndCleanTokenData []) 0%Q)) = None.
Proof.
  destruct (page_view_full_listing plain_query (mergeAndCleanTokenData []) 0%Q 20%Z)
    as (Hp & _ & Hn); [reflexivity | reflexivity | simpl; lia |].
  split; [exact Hp | exact Hn].
Defined.

(** X13. The nextCursor of a view, sent back as the [nextCursor]
    parameter of the same request, is parsed to the offset right after
    that view: the view then computed from the same catalog starts
    where the first one ended, and the two together are the records
    [s .. s+2L) of the sorted catalog. Both requests have one cache
    key. *)
Theorem nextCursor_continues
    (query : Query) (catalog : list TokenRecord) (t : Q) (L s : Z) (c : string) :
  limit_of query = Some L -> start_of query = Some s ->
  (0 <= L)%Z -> (0 <= s)%Z ->
  nextCursor (pagination (page_view query catalog t)) = Some c ->
  start_of (with_cursor (Some c) query) = Some (s + L)%Z /\
  data (page_view query catalog t) ++ data (page_view (with_cursor (Some c) query) catalog t)
    = take (Z.to_nat (2 * L)) (drop (Z.to_nat s) (sorted_for query catalog)) /\
  key_of (with_cursor (Some c) query) = key_of query.
Proof.
  intros HL Hs HL0 Hs0 Hc.
  destruct (page_view_slice query catalog t L s HL Hs HL0 Hs0) as (Hd & _ & _ & Hsome & Hnone).
  assert (Hcur : c = Builtin.toString (s + L)).
  { destruct (Z_lt_le_dec (s + L) (Z.of_nat (length catalog))) as [Hlt|Hge].
    - rewrite (Hsome Hlt) in Hc. congruence.
    - rewrite (Hnone Hge) in Hc. discriminate. }
  assert (Hstart : start_of (with_cursor (Some c) query) = Some (s + L)%Z).
  { unfold start_of, with_cursor. simpl. rewrite Hcur, toString_truthy. apply parseInt_toString. }
  split; [exact Hstart|]. split; [|reflexivity].
  destruct (page_view_slice (with_cursor (Some c) query) catalog t L (s + L))
    as (Hd2 & _); [exact HL | exact Hstart | lia | lia |].
  rewrite Hd, Hd2.
  change (sorted_for (with_cursor (Some c) query) catalog) with (sorted_for query catalog).
  replace (Z.to_nat (s + L)) with (Z.to_nat s + Z.to_nat L) by lia.
  rewrite <- drop_drop.
  replace (Z.to_nat (2 * L)) with (Z.to_nat L + Z.to_nat L) by lia.
  now rewrite take_take_drop.
Qed.

Lemma nextCursor_continues_witness :
  ids (data (page_view page1 (mergeAndCleanTokenData []) 0%Q)
       ++ data (page_view (with_cursor (Some "1") page1) (mergeAndCleanTokenData []) 0%Q))
    = ["SOL"; "BONK"].
Proof.
  destruct (nextCursor_continues page1 (mergeAndCleanTokenData []) 0%Q 1%Z 0%Z "1")
    as (_ & Hd & _); [reflexivity | reflexivity | lia | lia | reflexivity |].
  now rewrite Hd.
Defined.

(** X14. [filterBy] filters nothing: two requests that differ only in
    [filterBy] compute the same view from the same catalog, yet are
    cached under different keys. *)
Theorem filterBy_only_splits_the_cache
    (query : Query) (f : option string) (catalog : list TokenRecord) (t : Q) :
  default "24h" f <> default "24h" (q_filterBy query) ->
  page_view (with_filter f query) catalog t = page_view query catalog t /\
  key_of (with_filter f query) <> key_of query.
Proof.
  intros Hf. split; [reflexivity|].
  unfold key_of, with_filter, cache_key. simpl. intros H.
  repeat (apply String.app_inj in H). contradiction.
Qed.

Lemma filterBy_only_splits_the_cache_witness :
  page_view (with_filter (Some "1h") plain_query) (mergeAndCleanTokenData []) 0%Q
    = page_view plain_query (mergeAndCleanTokenData []) 0%Q /\
  key_of (with_filter (Some "1h") plain_query) <> key_of plain_query.
Proof.
  apply (filterBy_only_splits_the_cache plain_query (Some "1h")). discriminate.
Defined.

Lemma sort_constant_key {A} (key : A -> Q) (l : list A) :
  (forall x y, (key x == key y)%Q) ->
  Builtin.sort (Builtin.descending key) l = l.
Proof.
  intros Hkey. induction l as [|x l IH]; [reflexivity|].
  unfold Builtin.sort in *. simpl. rewrite IH.
  destruct l as [|y l]; [reflexivity|]. simpl.
  unfold Js.Qlt_bool, Builtin.descending.
  assert (H : Qle_bool (key y - key x) 0 = true).
  { apply Qle_bool_iff. pose proof (Hkey y x). lra. }
  now rewrite H.
Qed.

(** X15. A [sortBy] that is neither one of the four numeric fields nor
    [id] sorts nothing: the records are served in the order of the
    stored catalog. *)
Theorem unknown_sortBy_keeps_order
    (query : Query) (sortBy : string) (catalog : list TokenRecord) :
  q_sortBy query = Some sortBy ->
  sortBy <> "price" -> sortBy <> "volume24h" -> sortBy <> "priceChange1h" ->
  sortBy <> "priceChange24h" -> sortBy <> "id" ->
  sorted_for query catalog = catalog.
Proof.
  intros Hq H1 H2 H3 H4 _. unfold sorted_for, by_desc. rewrite Hq. simpl default.
  apply sort_constant_key. intros x y. unfold sort_key.
  apply String.eqb_neq in H1, H2, H3, H4. rewrite H1, H2, H3, H4. reflexivity.
Qed.

Lemma unknown_sortBy_keeps_order_witness :
  ids (sorted_for (mkQuery None (Some "marketCap") None None) (mergeAndCleanTokenData []))
    = ["SOL"; "JUP"; "BONK"].
Proof.
  rewrite (unknown_sortBy_keeps_order (mkQuery None (Some "marketCap") None None) "marketCap");
    [reflexivity | reflexivity | discriminate | discriminate | discriminate | discriminate
    | discriminate].
Defined.

(** X16. A [limit] that [parseInt] cannot read is no error: the view
    is empty, its limit is null and it has no nextCursor, whatever the
    cursor and the catalog. *)
Theorem unreadable_limit_gives_empty_page
    (query : Query) (catalog : list TokenRecord) (t : Q) :
  limit_of query = None ->
  data (page_view query catalog t) = [] /\
  limit (pagination (page_view query catalog t)) = None /\
  nextCursor (pagination (page_view query catalog t)) = None.
Proof.
  intros HL. rewrite page_view_parts, HL.
  assert (Hadd : Builtin.add (start_of query) None = None) by (now destruct (start_of query)).
  rewrite Hadd. simpl. split; [|split; reflexivity].
  assert (Hk : (0 <= Builtin.relative_index
                       (Z.of_nat (length (sorted_for query catalog))) (start_of query))%Z).
  { unfold Builtin.relative_index.
    destruct (default 0 (start_of query) <? 0)%Z eqn:E; [lia|]. apply Z.ltb_ge in E. lia. }
  assert (Hf : Builtin.relative_index
                 (Z.of_nat (length (sorted_for query catalog))) None = 0%Z).
  { unfold Builtin.relative_index. simpl default. change (0 <? 0)%Z with false.
    cbv iota. lia. }
  unfold Builtin.slice. rewrite Hf.
  set (k0 := Builtin.relative_index _ (start_of query)) in *.
  replace (Z.to_nat (0 - k0)) with 0 by lia. apply take_0.
Qed.

Lemma unreadable_limit_gives_empty_page_witness :
  data (page_view (mkQuery (Some "ten") None None None) (mergeAndCleanTokenData []) 0%Q) = [].
Proof.
  apply (unreadable_limit_gives_empty_page (mkQuery (Some "ten") None None None)).
  reflexivity.
Defined.

(** X17. A negative [limit] is not refused either: with no cursor and
    limit [-k], the view holds the sorted catalog without its last [k]
    records, and its nextCursor is the negative number [-k]. *)
Theorem negative_limit_drops_the_tail
    (query : Query) (catalog : list TokenRecord) (t : Q) (k : Z) :
  limit_of query = Some (- k)%Z -> start_of query = Some 0%Z ->
  (0 < k)%Z ->
  data (page_view query catalog t)
    = take (length catalog - Z.to_nat k) (sorted_for query catalog) /\
  nextCursor (pagination (page_view query catalog t)) = Some (Builtin.toString (- k)).
Proof.
  intros HL Hs Hk. rewrite page_view_parts, HL, Hs. simpl Builtin.add.
  rewrite Z.add_0_l. cbv [data pagination nextCursor].
  pose proof (sorted_for_length query catalog) as Hlen. split.
  - unfold Builtin.slice, Builtin.relative_index. simpl default.
    change (0 <? 0)%Z with false. cbv iota.
    assert (E : (- k <? 0)%Z = true) by (apply Z.ltb_lt; lia). rewrite E.
    rewrite Z.min_l by lia. rewrite Z.sub_0_r. change (Z.to_nat 0) with 0. rewrite drop_0.
    f_equal. rewrite Hlen. lia.
  - unfold Builtin.lt.
    assert (E : (- k <? Z.of_nat (length (sorted_for query catalog)))%Z = true)
      by (apply Z.ltb_lt; lia).
    now rewrite E.
Qed.

Lemma negative_limit_drops_the_tail_witness :
  ids (data (page_view (mkQuery (Some "-1") None None None) (mergeAndCleanTokenData []) 0%Q))
    = ["SOL"; "BONK"] /\
  nextCursor (pagination (page_view (mkQuery (Some "-1") None None None)
                                    (mergeAndCleanTokenData []) 0%Q)) = Some "-1".
Proof.
  destruct (negative_limit_drops_the_tail (mkQuery (Some "-1") None None None)
              (mergeAndCleanTokenData []) 0%Q 1%Z) as (Hd & Hn);
    [reflexivity | reflexivity | lia |].
  split; [now rewrite Hd | exact Hn].
Defined.

(** ** The full aggregation job, any upstream *)

Lemma bind_pure_requests {A B} (m : M A) (k : A -> M B) (w : World) :
  (forall a w1, after (k a) w1 = w1) ->
  after (bind m k) w = after m w.
Proof.
  intros Hk. unfold after, bind in *. destruct (m w) as [[a|e] w1]; simpl; [apply Hk | reflexivity].
Qed.

Lemma fetchWithRetry_request_count (url : string) (w : World) :
  length (requests w) + 1 <= length (requests (after (fetchWithRetry url DEFAULT_RETRIES) w))
  <= length (requests w) + 3.
Proof.
  destruct (loop_trace url DEFAULT_RETRIES DEFAULT_RETRIES 0 w) as (n & logs & Hn & Hreq & _);
    [reflexivity | unfold DEFAULT_RETRIES; lia |].
  unfold fetchWithRetry. rewrite Hreq, length_app, length_replicate.
  unfold DEFAULT_RETRIES in Hn. lia.
Qed.

Lemma fetchDexScreener_request_count (symbol : string) (w : World) :
  length (requests w) + 1 <= length (requests (after (fetchDexScreener symbol) w))
  <= length (requests w) + 3.
Proof.
  unfold fetchDexScreener. rewrite bind_pure_requests; [apply fetchWithRetry_request_count|].
  intros [|[p|] d i|l] w1; reflexivity.
Qed.

Lemma fetchJupiterPrice_request_count (symbol : string) (w : World) :
  length (requests w) + 1 <= length (requests (after (fetchJupiterPrice symbol) w))
  <= length (requests w) + 3.
Proof.
  unfold fetchJupiterPrice. rewrite bind_pure_requests; [apply fetchWithRetry_request_count|].
  intros [|p d i|l] w1; reflexivity.
Qed.

Lemma fetchSymbol_run (symbol : string) (w : World) :
  exists r w',
    fetchSymbol symbol w = (Return r, w') /\ fetch_frame w w' /\
    length (requests w) + 2 <= length (requests w') <= length (requests w) + 6.
Proof.
  pose proof (fetchDexScreener_frame symbol w) as Hd.
  pose proof (fetchDexScreener_request_count symbol w) as Hdn.
  unfold fetchSymbol, bind, settled, after in *.
  destruct (fetchDexScreener symbol w) as [cd w1]. simpl in *.
  pose proof (fetchJupiterPrice_frame symbol w1) as Hj.
  pose proof (fetchJupiterPrice_request_count symbol w1) as Hjn.
  unfold after in Hj, Hjn.
  destruct (fetchJupiterPrice symbol w1) as [cj w2]. simpl in *.
  eexists. eexists. split; [reflexivity|].
  split; [eapply fetch_frame_trans; eassumption | lia].
Qed.

Lemma for_each_fetchSymbol_run (l : list string) :
  forall w : World,
    exists rs w',
      for_each fetchSymbol l w = (Return rs, w') /\ fetch_frame w w' /\
      length (requests w) + 2 * length l <= length (requests w')
      <= length (requests w) + 6 * length l.
Proof.
  induction l as [|x l IH]; intros w.
  - exists [], w. split; [reflexivity|]. split; [apply fetch_frame_refl | simpl; lia].
  - destruct (fetchSymbol_run x w) as (r & w1 & Hr & Hf & Hn).
    destruct (IH w1) as (rs & w2 & Hrs & Hfs & Hns).
    exists (r :: rs), w2. split; [|split; [eapply fetch_frame_trans; eassumption | simpl length; lia]].
    simpl. unfold bind at 1. rewrite Hr. unfold bind at 1. now rewrite Hrs.
Qed.

(** Every run of the job, with the world it leaves. *)
Lemma runFullAggregation_run (w : World) :
  exists rs w1,
    for_each fetchSymbol MOCK_TOP_TOKENS (add_log SchedulerStarting w) = (Return rs, w1) /\
    fetch_frame w w1 /\
    length (requests w) + 8 <= length (requests w1) <= length (requests w) + 24 /\
    runFullAggregation w =
      (Return tt,
       if redis_up w (redis_cmds w)
       then add_log (SchedulerUpdated 3 TOKEN_LIST_KEY)
              (with_store
                 (fun s => <[TOKEN_LIST_KEY :=
                               (SCatalog (mergeAndCleanTokenData []),
                                (now w1 + inject_Z (CACHE_TTL_SECONDS * 1000))%Q)]> s)
                 (next_redis_cmd w1))
       else add_log (SchedulerFailed RedisError) (next_redis_cmd w1)).
Proof.
  destruct (for_each_fetchSymbol_run MOCK_TOP_TOKENS (add_log SchedulerStarting w))
    as (rs & w1 & Hrs & Hf & Hn).
  exists rs, w1. split; [exact Hrs|]. split; [exact Hf|]. split; [exact Hn|].
  destruct Hf as (Hs & Hu & Hc & _). simpl in Hu, Hc.
  unfold runFullAggregation, aggregation_steps. rewrite bind_console_log.
  destruct (redis_up w (redis_cmds w)) eqn:Hup.
  - erewrite try_catch_return; [reflexivity|].
    rewrite (bind_return _ _ _ _ _ Hrs).
    erewrite bind_return; [reflexivity|].
    apply setJson_done. now rewrite Hu, Hc.
  - erewrite try_catch_throw; [reflexivity|].
    rewrite (bind_return _ _ _ _ _ Hrs).
    apply bind_throw, setJson_failed. now rewrite Hu, Hc.
Qed.

(** X18. Whatever the upstream and Redis do, a run of
    [runFullAggregation] completes normally; it sends between 8 and 24
    upstream requests and exactly one Redis command; it changes the key
    space at most under the catalog key and publishes nothing. *)
Theorem runFullAggregation_contained (w : World) :
  completion runFullAggregation w = Return tt /\
  length (requests w) + 8 <= length (requests (after runFullAggregation w))
    <= length (requests w) + 24 /\
  redis_cmds (after runFullAggregation w) = S (redis_cmds w) /\
  (forall k, k <> TOKEN_LIST_KEY ->
     store (after runFullAggregation w) !! k = store w !! k) /\
  published (after runFullAggregation w) = published w.
Proof.
  destruct (runFullAggregation_run w) as (rs & w1 & _ & (Hs & _ & Hc & _ & _ & Hp) & Hn & Hrun).
  unfold completion, after. rewrite Hrun. simpl fst. simpl snd.
  split; [reflexivity|].
  destruct (redis_up w (redis_cmds w)); simpl.
  - split; [exact Hn|]. split; [now rewrite Hc|].
    split; [|exact Hp]. intros k Hk. rewrite lookup_insert_ne by congruence. now rewrite Hs.
  - split; [exact Hn|]. split; [now rewrite Hc|].
    split; [|exact Hp]. intros k Hk. now rewrite Hs.
Qed.

(** X19. When the write of the catalog is not served, the run still
    completes normally: the failure is logged with [console.error] as
    the last line, no success line is written, and the key space is
    left as it was, so a catalog stored earlier stays in place. *)
Theorem runFullAggregation_failed_write (w : World) :
  redis_up w (redis_cmds w) = false ->
  completion runFullAggregation w = Return tt /\
  last_line (after runFullAggregation w) = Some (SchedulerFailed RedisError) /\
  store (after runFullAggregation w) = store w.
Proof.
  intros Hup.
  destruct (runFullAggregation_run w) as (rs & w1 & _ & (Hs & _) & _ & Hrun).
  unfold completion, after, last_line. rewrite Hrun, Hup. simpl.
  split; [reflexivity|]. split; [|exact Hs].
  rewrite fmap_app. simpl. now rewrite last_last.
Qed.

Lemma runFullAggregation_failed_write_witness :
  completion runFullAggregation (redis_down_world (always_status 404) (1 # 4)) = Return tt /\
  store (after runFullAggregation (redis_down_world (always_status 404) (1 # 4))) = ∅.
Proof.
  destruct (runFullAggregation_failed_write (redis_down_world (always_status 404) (1 # 4)))
    as (Hc & _ & Hs); [reflexivity|].
  split; [exact Hc | exact Hs].
Defined.

(** X20. [startScheduler] returns before the catalog is seeded: it
    leaves the key space as it was and the seeding run pending. With
    Redis serving and neither a cached view nor a catalog stored, a
    request handled before the pending run has completed is answered
    503; once the event loop has completed the run, the same request
    is answered 200 with a view of the three catalog records. *)
Theorem startScheduler_seeds_later (query : Query) (w : World) :
  (forall n, redis_up w n = true) ->
  store w !! key_of query = None ->
  store w !! TOKEN_LIST_KEY = None ->
  pending w = [] ->
  store (after startScheduler w) = store w /\
  pending (after startScheduler w) = [SeedingRun] /\
  completion (getTokenList query) (after startScheduler w)
    = Return (mkRes 503 (JsonError UNAVAILABLE)) /\
  completion (getTokenList query) (after event_loop (after startScheduler w))
    = Return (mkRes 200
                (JsonView (page_view query (mergeAndCleanTokenData [])
                                     (now (after event_loop (after startScheduler w)))))).
Proof.
  intros Hup Hkey Hcat Hpend.
  set (w0 := add_log (CronScheduled TICKER_CRON) (add_log (CronScheduled AGGREGATION_CRON) w)).
  assert (Hstart : after startScheduler w
                   = with_pending [SeedingRun] (add_log SchedulerStarting w0)).
  { unfold after, startScheduler. rewrite !bind_console_log. fold w0.
    unfold bind, not_awaited, ret. simpl. now rewrite Hpend. }
  rewrite Hstart.
  split; [reflexivity|]. split; [reflexivity|]. split.
  { unfold completion. rewrite path_unavailable; [reflexivity |..].
    - apply Hup.
    - unfold read_at. simpl. now rewrite Hkey.
    - apply Hup.
    - left. unfold read_at. simpl. now rewrite Hcat. }
  destruct (runFullAggregation_run (with_pending [] w0))
    as (rs & w1 & _ & (Hs & Hu & Hc & _) & _ & Hrun).
  simpl redis_up in Hrun. rewrite Hup in Hrun.
  assert (Hloop : after event_loop (with_pending [SeedingRun] (add_log SchedulerStarting w0))
                  = add_log (SchedulerUpdated 3 TOKEN_LIST_KEY)
                      (with_store
                         (fun s => <[TOKEN_LIST_KEY :=
                                       (SCatalog (mergeAndCleanTokenData []),
                                        (now w1 + inject_Z (CACHE_TTL_SECONDS * 1000))%Q)]> s)
                         (next_redis_cmd w1))).
  { unfold after, event_loop. simpl pending. simpl resume_all. simpl resume.
    change (with_pending [] (with_pending [SeedingRun] (add_log SchedulerStarting w0)))
      with (add_log SchedulerStarting (with_pending [] w0)).
    change (aggregation_steps (add_log SchedulerStarting (with_pending [] w0)))
      with (runFullAggregation (with_pending [] w0)) in *.
    unfold bind at 1.
    change (aggregation_steps (add_log SchedulerStarting (with_pending [] w0)))
      with (runFullAggregation (with_pending [] w0)).
    now rewrite Hrun. }
  rewrite Hloop. set (w2 := add_log _ _).
  assert (Hup2 : forall n, redis_up w2 n = true).
  { intros n. unfold w2. simpl. rewrite Hu. apply Hup. }
  unfold completion.
  rewrite (path_computed query w2 (mergeAndCleanTokenData [])); [reflexivity |..].
  - apply Hup2.
  - unfold read_at, w2. simpl.
    rewrite lookup_insert_ne by (intros H; symmetry in H; now apply key_of_not_catalog in H).
    rewrite Hs. simpl. now rewrite Hkey.
  - apply Hup2.
  - unfold read_at, w2. simpl. rewrite lookup_insert_eq.
    rewrite live_before; [reflexivity|].
    change (inject_Z (CACHE_TTL_SECONDS * 1000)) with 30000%Q. lra.
  - discriminate.
  - apply Hup2.
Qed.

Lemma startScheduler_seeds_later_witness :
  completion (getTokenList plain_query)
             (after startScheduler (fresh_world (always_status 404) (1 # 4)))
    = Return (mkRes 503 (JsonError UNAVAILABLE)) /\
  exists v,
    completion (getTokenList plain_query)
               (after event_loop (after startScheduler (fresh_world (always_status 404) (1 # 4))))
      = Return (mkRes 200 (JsonView v)) /\
    ids (data v) = ["SOL"; "BONK"; "JUP"].
Proof.
  destruct (startScheduler_seeds_later plain_query (fresh_world (always_status 404) (1 # 4)))
    as (_ & _ & H503 & H200);
    [intros n; reflexivity | reflexivity | reflexivity | reflexivity |].
  split; [exact H503|].
  eexists. split; [exact H200 | reflexivity].
Defined.


(** ** The realtime ticker, any cycle *)

Lemma runRealtimeTicker_body (w : World) :
  runRealtimeTicker w =
  bind (promise_all2 (getJson TICKER_KEY) (fetchDexScreener "SOL"))
       (fun both => ticker_body (fst both) (snd both)) w.
Proof. reflexivity. Qed.

(** The two awaited operations, when both succeed. *)
Lemma ticker_awaits (w : World) (solDex : list Pair) :
  redis_up w (redis_cmds w) = true ->
  completion (fetchDexScreener "SOL") (next_redis_cmd w) = Return solDex ->
  exists w2,
    runRealtimeTicker w = ticker_body (read_at (now w) TICKER_KEY w) solDex w2 /\
    store w2 = store w /\ published w2 = published w /\
    redis_up w2 = redis_up w /\ redis_cmds w2 = S (redis_cmds w).
Proof.
  intros Hup Hfetch.
  destruct (fetchDexScreener_result _ _ _ Hfetch) as (w2 & Hdex & (Hs & Hu & Hc & _ & _ & Hp)).
  exists w2. simpl in Hs, Hu, Hc, Hp. split; [|auto].
  assert (Hall : promise_all2 (getJson TICKER_KEY) (fetchDexScreener "SOL") w
                 = (Return (read_at (now w) TICKER_KEY w, solDex), w2)).
  { unfold promise_all2. now rewrite (getJson_served _ w Hup), Hdex. }
  rewrite runRealtimeTicker_body. now rewrite (bind_return _ _ _ _ _ Hall).
Qed.

(** X21. When the upstream lists no pair, the cycle does nothing: it
    completes normally, publishes nothing and leaves the key space, and
    so the last ticker state, as it was. *)
Theorem runRealtimeTicker_no_pairs (w : World) :
  redis_up w (redis_cmds w) = true ->
  completion (fetchDexScreener "SOL") (next_redis_cmd w) = Return [] ->
  completion runRealtimeTicker w = Return tt /\
  published (after runRealtimeTicker w) = published w /\
  store (after runRealtimeTicker w) = store w.
Proof.
  intros Hup Hfetch.
  destruct (ticker_awaits w [] Hup Hfetch) as (w2 & Hrun & Hs & Hp & _).
  unfold completion, after. rewrite Hrun. simpl. auto.
Qed.

Lemma runRealtimeTicker_no_pairs_witness :
  completion runRealtimeTicker (fresh_world no_pairs_upstream (1 # 4)) = Return tt /\
  store (after runRealtimeTicker (fresh_world no_pairs_upstream (1 # 4))) = ∅.
Proof.
  destruct (runRealtimeTicker_no_pairs (fresh_world no_pairs_upstream (1 # 4)))
    as (Hc & _ & Hs); [reflexivity | reflexivity |].
  split; [exact Hc | exact Hs].
Defined.

Lemma ticker_body_effects (solOld : option Stored) (solDex : list Pair) (w : World) :
  exists evs,
    published (after (ticker_body solOld solDex) w) = published w ++ evs /\
    length evs <= 1 /\
    Forall (fun m => fst m = REALTIME_CHANNEL /\ u_symbol (snd m) = "SOL") evs /\
    (forall k, k <> TICKER_KEY ->
       store (after (ticker_body solOld solDex) w) !! k = store w !! k).
Proof.
  assert (Hnone : forall (c : Js.Completion unit) (w1 : World),
            store w1 = store w -> published w1 = published w ->
            exists evs,
              published (c, w1).2 = published w ++ evs /\ length evs <= 1 /\
              Forall (fun m => fst m = REALTIME_CHANNEL /\ u_symbol (snd m) = "SOL") evs /\
              (forall k, k <> TICKER_KEY -> store (c, w1).2 !! k = store w !! k)).
  { intros c w1 Hs Hp. exists []. simpl. rewrite Hs, Hp, app_nil_r.
    repeat split; auto. }
  assert (Hset : forall (p : option Q) (w1 : World) (evs : list (string * PriceUpdateEvent)),
            store w1 = store w -> published w1 = published w ++ evs -> length evs <= 1 ->
            Forall (fun m => fst m = REALTIME_CHANNEL /\ u_symbol (snd m) = "SOL") evs ->
            exists evs',
              published (setJson TICKER_KEY (STicker p) (Some TICKER_TTL) w1).2
                = published w ++ evs' /\ length evs' <= 1 /\
              Forall (fun m => fst m = REALTIME_CHANNEL /\ u_symbol (snd m) = "SOL") evs' /\
              (forall k, k <> TICKER_KEY ->
                 store (setJson TICKER_KEY (STicker p) (Some TICKER_TTL) w1).2 !! k
                 = store w !! k)).
  { intros p w1 evs Hs Hp Hl Hf. exists evs. unfold setJson, redis_set_ex.
    destruct (redis_up w1 (redis_cmds w1)); simpl; rewrite Hs, Hp.
    - repeat split; auto. intros k Hk. now rewrite lookup_insert_ne by congruence.
    - repeat split; auto. }
  unfold after, ticker_body.
  destruct (Builtin.sort by_volume_desc solDex) as [|latestPair rest].
  { apply (Hnone (Return tt) w); reflexivity. }
  unfold bind at 1.
  destruct solOld as [old|].
  2:{ apply (Hset _ w []); auto. now rewrite app_nil_r. }
  destruct (moved (priceUsd latestPair) (old_price old)).
  2:{ apply (Hset _ w []); auto. now rewrite app_nil_r. }
  destruct (volume latestPair) as [v|].
  2:{ apply (Hnone (Throw _) w); reflexivity. }
  unfold bind, Date_now, redis_publish, console_log.
  destruct (redis_up w (redis_cmds w)).
  - apply (Hset _ _ [(REALTIME_CHANNEL,
                       mkUpdate "SOL" (Js.to_json (priceUsd latestPair)) (h24 v) (now w))]);
      auto.
  - apply (Hset _ _ []); auto. simpl. now rewrite app_nil_r.
Qed.

Lemma getJson_frame (key : string) (w : World) :
  store (after (getJson key) w) = store w /\ published (after (getJson key) w) = published w.
Proof.
  unfold after, getJson, redis_get.
  destruct (redis_up w (redis_cmds w)); [destruct (store w !! key)|]; auto.
Qed.

(** X22. Whatever the upstream and Redis do, a ticker cycle publishes
    at most one event, on the broadcast channel and for SOL, and
    changes the key space at most under the ticker key: the catalog and
    the cached views are never touched. *)
Theorem runRealtimeTicker_contained (w : World) :
  exists evs,
    published (after runRealtimeTicker w) = published w ++ evs /\
    length evs <= 1 /\
    Forall (fun m => fst m = REALTIME_CHANNEL /\ u_symbol (snd m) = "SOL") evs /\
    (forall k, k <> TICKER_KEY -> store (after runRealtimeTicker w) !! k = store w !! k).
Proof.
  destruct (getJson_frame TICKER_KEY w) as [Hs1 Hp1].
  pose proof (fetchDexScreener_frame "SOL" (after (getJson TICKER_KEY) w)) as (Hs2 & _ & _ & _ & _ & Hp2).
  unfold after in *. rewrite runRealtimeTicker_body. unfold bind, promise_all2.
  destruct (getJson TICKER_KEY w) as [c1 w1]. simpl in *.
  destruct (fetchDexScreener "SOL" w1) as [c2 w2]. simpl in *.
  assert (Hstop : exists evs : list (string * PriceUpdateEvent),
            published w2 = published w ++ evs /\ length evs <= 1 /\
            Forall (fun m => fst m = REALTIME_CHANNEL /\ u_symbol (snd m) = "SOL") evs /\
            (forall k, k <> TICKER_KEY -> store w2 !! k = store w !! k)).
  { exists []. rewrite app_nil_r, Hp2, Hp1, Hs2, Hs1. repeat split; auto. }
  destruct c1 as [prior|e1]; destruct c2 as [solDex|e2]; simpl; try exact Hstop.
  destruct (ticker_body_effects prior solDex w2) as (evs & Hp & Hl & Hf & Hk).
  exists evs. unfold after in *. rewrite Hp, Hp2, Hp1.
  repeat split; auto. intros k Hne. rewrite (Hk k Hne). now rewrite Hs2, Hs1.
Qed.

Lemma bind_returns {A B} (m : M A) (k : A -> M B) (w : World) (b : B) :
  (bind m k w).1 = Return b ->
  exists a w1, m w = (Return a, w1) /\ bind m k w = k a w1 /\ (k a w1).1 = Return b.
Proof.
  unfold bind. destruct (m w) as [[a|e] w1]; simpl; [|discriminate].
  intros H. now exists a, w1.
Qed.

Lemma filter_head_split {A} (P : A -> bool) (l : list A) (p : A) (r : list A) :
  List.filter P l = p :: r ->
  exists pre post, l = pre ++ p :: post /\ Forall (fun q => P q = false) pre.
Proof.
  induction l as [|x l IH]; simpl; [discriminate|].
  destruct (P x) eqn:E; intros H.
  - injection H as -> _. exists [], l. split; [reflexivity | constructor].
  - destruct (IH H) as (pre & post & -> & Hpre).
    exists (x :: pre), post. split; [reflexivity | now constructor].
Qed.

(** The head of a descending sort is a record of the greatest key, the
    first such record of the input. *)
Lemma sort_head {A} (key : A -> Q) (l : list A) (p : A) (rest : list A) :
  Builtin.sort (Builtin.descending key) l = p :: rest ->
  exists pre post,
    l = pre ++ p :: post /\
    Forall (fun q => (key q < key p)%Q) pre /\
    Forall (fun q => (key q <= key p)%Q) post.
Proof.
  intros Hsort.
  assert (Hmax : forall q, In q l -> (key q <= key p)%Q).
  { intros q Hq. pose proof (sort_perm (Builtin.descending key) l) as Hperm.
    pose proof (sort_desc key l) as Hsorted. rewrite Hsort in Hperm, Hsorted.
    apply (Permutation_in q (Permutation_sym Hperm)) in Hq.
    inversion Hsorted as [|? ? _ Hall]; subst.
    destruct Hq as [<- | Hq]; [apply Qle_refl|].
    rewrite List.Forall_forall in Hall. now apply Hall. }
  pose proof (sort_stable key (key p) l) as Hst. rewrite Hsort in Hst. simpl in Hst.
  assert (Hpp : Qeq_bool (key p) (key p) = true) by (apply Qeq_bool_iff; reflexivity).
  rewrite Hpp in Hst. symmetry in Hst.
  destruct (filter_head_split _ _ _ _ Hst) as (pre & post & -> & Hpre).
  exists pre, post. split; [reflexivity|]. split.
  - apply List.Forall_forall. intros q Hq.
    rewrite List.Forall_forall in Hpre. specialize (Hpre q Hq).
    assert (Hle : (key q <= key p)%Q) by (apply Hmax, in_or_app; now left).
    destruct (Qlt_le_dec (key q) (key p)) as [Hlt|Hge]; [exact Hlt|].
    assert (Heq : Qeq_bool (key q) (key p) = true) by (apply Qeq_bool_iff; lra).
    congruence.
  - apply List.Forall_forall. intros q Hq. apply Hmax, in_or_app. right. now right.
Qed.

(** X23. In a cycle that completes normally on a non-empty list of
    pairs, the price written as TickerState, to expire 60 seconds
    later, is that of a pair of the greatest 24h volume (a missing
    volume counting as 0), the first such pair in the order the
    upstream listed them. *)
Theorem runRealtimeTicker_tracks_busiest_pair (w : World) (solDex : list Pair) :
  redis_up w (redis_cmds w) = true ->
  completion (fetchDexScreener "SOL") (next_redis_cmd w) = Return solDex ->
  solDex <> [] ->
  completion runRealtimeTicker w = Return tt ->
  exists pre p post,
    solDex = pre ++ p :: post /\
    Forall (fun q => (volume_key q < volume_key p)%Q) pre /\
    Forall (fun q => (volume_key q <= volume_key p)%Q) post /\
    store (after runRealtimeTicker w) !! TICKER_KEY
      = Some (STicker (Js.to_json (priceUsd p)),
              (now (after runRealtimeTicker w) + inject_Z (60 * 1000))%Q).
Proof.
  intros Hup Hfetch Hne Hok.
  destruct (ticker_awaits w solDex Hup Hfetch) as (w2 & Hrun & _).
  unfold completion, after in *. rewrite Hrun in *. unfold ticker_body in *.
  destruct (Builtin.sort by_volume_desc solDex) as [|p rest] eqn:Hsort.
  { pose proof (sort_length by_volume_desc solDex) as Hlen. rewrite Hsort in Hlen.
    destruct solDex; [congruence | discriminate]. }
  destruct (sort_head volume_key solDex p rest Hsort) as (pre & post & Hsplit & Hpre & Hpost).
  exists pre, p, post. split; [exact Hsplit|]. split; [exact Hpre|]. split; [exact Hpost|].
  destruct (bind_returns _ _ _ _ Hok) as (u & w3 & _ & Hset & Hdone).
  rewrite Hset. unfold setJson, redis_set_ex in *.
  destruct (redis_up w3 (redis_cmds w3)); [|discriminate].
  simpl. now rewrite lookup_insert_eq.
Qed.

Lemma runRealtimeTicker_tracks_busiest_pair_witness :
  store (after runRealtimeTicker ticker_world) !! TICKER_KEY
    = Some (STicker (Js.to_json (Js.round 100.10%Q)),
            (now (after runRealtimeTicker ticker_world) + inject_Z (60 * 1000))%Q).
Proof.
  destruct (runRealtimeTicker_tracks_busiest_pair ticker_world
              [sol_pair 99%Q 1000%Q; sol_pair 100.10%Q 900000000%Q])
    as (pre & p & post & Hsplit & _ & Hpost & Hst);
    [reflexivity | reflexivity | discriminate | vm_compute; reflexivity |].
  destruct pre as [|a [|b pre]].
  - injection Hsplit as <- <-. inversion Hpost as [|? ? Hle _]; subst.
    vm_compute in Hle. now destruct Hle.
  - injection Hsplit as _ <- _. exact Hst.
  - injection Hsplit as _ _ Hnil. destruct pre; discriminate Hnil.
Defined.

Lemma moved_NaN (old : Js.Num) : moved NaN old = false.
Proof. now destruct old. Qed.

Lemma THRESHOLD_finite : exists t, THRESHOLD = Fin t.
Proof. eexists. vm_compute. reflexivity. Qed.

(** From a price of 0 every finite, non-zero price is a move: the
    quotient is [Infinity]. *)
Lemma moved_from_zero (p : Q) :
  Js.is_double p = true -> ~ (p == 0)%Q -> moved (Fin p) (Fin 0) = true.
Proof.
  intros Hd Hp. destruct (is_double_round p Hd) as (r & Hr & Er).
  unfold moved. simpl Js.sub.
  rewrite (round_proper (p - 0) p) by ring. rewrite Hr.
  simpl Js.abs. unfold Js.div, Js.Qeq0. change (Qeq_bool 0 0) with true. cbv iota.
  assert (Hnz : Qeq_bool (Qabs r) 0 = false).
  { destruct (Qeq_bool (Qabs r) 0) eqn:E; [|reflexivity].
    apply Qeq_bool_iff in E. exfalso. apply Hp. rewrite <- Er.
    revert E. apply Qabs_case; intros; lra. }
  rewrite Hnz. unfold Js.Qlt_bool.
  assert (Hpos : Qle_bool 0 (Qabs r) = true) by (apply Qle_bool_iff, Qabs_nonneg).
  rewrite Hpos. destruct THRESHOLD_finite as (t & ->). reflexivity.
Qed.

(** What a cycle does once both awaited operations have succeeded and
    the reply lists a pair, while Redis serves: whether the threshold
    test fires, and whether the pair taken has a [volume] object. *)
Lemma ticker_body_run
    (prior : option Stored) (solDex : list Pair) (latestPair : Pair) (rest : list Pair)
    (w2 : World) :
  (forall n, redis_up w2 n = true) ->
  Builtin.sort by_volume_desc solDex = latestPair :: rest ->
  let fires := match prior with
               | Some old => moved (priceUsd latestPair) (old_price old)
               | None => false
               end in
  let w3 := after (ticker_body prior solDex) w2 in
  match fires, volume latestPair with
  | true, None =>
      completion (ticker_body prior solDex) w2
        = Throw (TypeError "Cannot read properties of undefined (reading 'h24')") /\
      published w3 = published w2 /\ store w3 = store w2
  | true, Some v =>
      completion (ticker_body prior solDex) w2 = Return tt /\
      published w3 = published w2 ++
                     [(REALTIME_CHANNEL,
                       mkUpdate "SOL" (Js.to_json (priceUsd latestPair)) (h24 v) (now w3))] /\
      store w3 !! TICKER_KEY
        = Some (STicker (Js.to_json (priceUsd latestPair)), (now w3 + inject_Z (60 * 1000))%Q)
  | false, _ =>
      completion (ticker_body prior solDex) w2 = Return tt /\
      published w3 = published w2 /\
      store w3 !! TICKER_KEY
        = Some (STicker (Js.to_json (priceUsd latestPair)), (now w3 + inject_Z (60 * 1000))%Q)
  end.
Proof.
  intros Hup Hsort. cbv zeta. unfold completion, after, ticker_body. rewrite Hsort.
  assert (Hquiet : (let! _ := ret tt in
                    setJson TICKER_KEY (STicker (Js.to_json (priceUsd latestPair)))
                            (Some TICKER_TTL)) w2
                   = (Return tt,
                      with_store
                        (fun s => <[TICKER_KEY :=
                                      (STicker (Js.to_json (priceUsd latestPair)),
                                       (now w2 + inject_Z (TICKER_TTL * 1000))%Q)]> s)
                        (next_redis_cmd w2))).
  { unfold bind, ret, setJson, redis_set_ex. simpl. now rewrite Hup. }
  destruct prior as [old|].
  2:{ rewrite Hquiet. simpl. rewrite lookup_insert_eq. auto. }
  destruct (moved (priceUsd latestPair) (old_price old)).
  2:{ destruct (volume latestPair); rewrite Hquiet; simpl; rewrite lookup_insert_eq; auto. }
  destruct (volume latestPair) as [v|].
  - unfold bind, Date_now, redis_publish, console_log, setJson, redis_set_ex.
    rewrite Hup. simpl. rewrite Hup. simpl. rewrite lookup_insert_eq. auto.
  - unfold bind, throw. simpl. auto.
Qed.

(** X24. When the price of the busiest pair cannot be parsed (NaN),
    the cycle publishes nothing, whatever the prior state, and writes a
    TickerState whose price is null. *)
Theorem runRealtimeTicker_unparsable_price
    (w : World) (solDex : list Pair) (p : Pair) (rest : list Pair) :
  redis_up w (redis_cmds w) = true ->
  redis_up w (S (redis_cmds w)) = true ->
  completion (fetchDexScreener "SOL") (next_redis_cmd w) = Return solDex ->
  Builtin.sort by_volume_desc solDex = p :: rest ->
  priceUsd p = NaN ->
  completion runRealtimeTicker w = Return tt /\
  published (after runRealtimeTicker w) = published w /\
  store (after runRealtimeTicker w) !! TICKER_KEY
    = Some (STicker None, (now (after runRealtimeTicker w) + inject_Z (60 * 1000))%Q).
Proof.
  intros Hup Hup2 Hfetch Hsort Hnan.
  destruct (ticker_awaits w solDex Hup Hfetch) as (w2 & Hrun & Hs & Hp & Hu & Hc).
  unfold completion, after. rewrite Hrun. unfold ticker_body. rewrite Hsort, Hnan.
  assert (Hskip : forall prior,
            (match prior with
             | Some old =>
                 if moved NaN (old_price old) then
                   match volume p with
                   | None => throw (TypeError "Cannot read properties of undefined (reading 'h24')")
                   | Some v =>
                       let! t := Date_now in
                       redis_publish REALTIME_CHANNEL
                         (mkUpdate "SOL" (Js.to_json NaN) (h24 v) t);;
                       console_log (TickerPublished NaN)
                   end
                 else ret tt
             | None => ret tt
             end) w2 = (Return tt, w2)).
  { intros [old|]; [now rewrite moved_NaN | reflexivity]. }
  rewrite (bind_return _ _ _ _ _ (Hskip _)).
  rewrite setJson_done by (now rewrite Hu, Hc). simpl.
  rewrite lookup_insert_eq. auto.
Qed.

Lemma runRealtimeTicker_unparsable_price_witness :
  published (after runRealtimeTicker (fresh_world nan_upstream (1 # 4))) = [] /\
  read_at 0%Q TICKER_KEY (after runRealtimeTicker (fresh_world nan_upstream (1 # 4)))
    = Some (STicker None).
Proof.
  destruct (runRealtimeTicker_unparsable_price (fresh_world nan_upstream (1 # 4))
              [mkPair NaN (Some (mkVolume (Some 5%Q)))]
              (mkPair NaN (Some (mkVolume (Some 5%Q)))) [])
    as (_ & Hp & Hs); [reflexivity | reflexivity | reflexivity | reflexivity | reflexivity |].
  split; [exact Hp|]. unfold read_at. now rewrite Hs.
Defined.

(** X25. A stored TickerState whose price is null (as written after an
    unparsable price) counts as 0 in the comparison, so every finite,
    non-zero price passes the threshold test, however close to the last
    good price it is. With a [volume] object on the pair taken, the
    price is published and becomes the state; without one the cycle is
    rejected with a TypeError, and nothing is published or written. *)
Theorem runRealtimeTicker_after_null_state
    (w : World) (solDex : list Pair) (latestPair : Pair) (rest : list Pair) (p : Q) :
  (forall n, redis_up w n = true) ->
  completion (fetchDexScreener "SOL") (next_redis_cmd w) = Return solDex ->
  Builtin.sort by_volume_desc solDex = latestPair :: rest ->
  priceUsd latestPair = Fin p -> Js.is_double p = true -> ~ (p == 0)%Q ->
  read_at (now w) TICKER_KEY w = Some (STicker None) ->
  match volume latestPair with
  | Some v =>
      completion runRealtimeTicker w = Return tt /\
      published (after runRealtimeTicker w)
        = published w ++ [(REALTIME_CHANNEL,
                           mkUpdate "SOL" (Some p) (h24 v) (now (after runRealtimeTicker w)))] /\
      store (after runRealtimeTicker w) !! TICKER_KEY
        = Some (STicker (Some p), (now (after runRealtimeTicker w) + inject_Z (60 * 1000))%Q)
  | None =>
      completion runRealtimeTicker w
        = Throw (TypeError "Cannot read properties of undefined (reading 'h24')") /\
      published (after runRealtimeTicker w) = published w /\
      store (after runRealtimeTicker w) = store w
  end.
Proof.
  intros Hup Hfetch Hsort Hprice Hd Hp0 Hprior.
  destruct (ticker_awaits w solDex (Hup _) Hfetch) as (w2 & Hrun & Hs & Hp & Hu & Hc).
  assert (Hup2 : forall n, redis_up w2 n = true) by (intros n; now rewrite Hu).
  pose proof (ticker_body_run (Some (STicker None)) solDex latestPair rest w2 Hup2 Hsort) as Hb.
  cbv beta iota zeta in Hb. change (old_price (STicker None)) with (Fin 0) in Hb.
  rewrite Hprice in Hb. rewrite (moved_from_zero p Hd Hp0) in Hb. simpl Js.to_json in Hb.
  unfold completion, after in *. rewrite Hrun, Hprior.
  destruct (volume latestPair) as [v|]; destruct Hb as (H1 & H2 & H3).
  - rewrite H1, H2, H3, Hp. auto.
  - rewrite H1, H2, H3, Hp, Hs. auto.
Qed.

Lemma runRealtimeTicker_after_null_state_witness :
  published (after runRealtimeTicker null_state_world)
    = [(REALTIME_CHANNEL,
        mkUpdate "SOL" (Js.to_json (Js.round 100.10%Q)) (Some 900000000%Q)
                 (now (after runRealtimeTicker null_state_world)))].
Proof.
  pose proof (runRealtimeTicker_after_null_state null_state_world
                [sol_pair 99%Q 1000%Q; sol_pair 100.10%Q 900000000%Q]
                (sol_pair 100.10%Q 900000000%Q) [sol_pair 99%Q 1000%Q]
                (3521955646092083 # 35184372088832)) as H.
  simpl volume in H.
  destruct H as (_ & Hp & _).
  - intros n. reflexivity.
  - vm_compute. reflexivity.
  - vm_compute. reflexivity.
  - vm_compute. reflexivity.
  - vm_compute. reflexivity.
  - discriminate.
  - vm_compute. reflexivity.
  - exact Hp.
Defined.

(** ** The broadcast gateway, rooms and payloads *)

Lemma subscribe_all_keeps (subs : list (string * string)) :
  forall g, clients (subscribe_all subs g) = clients g /\
            emitted (subscribe_all subs g) = emitted g.
Proof.
  induction subs as [|s subs IH]; intros g; [now split|].
  unfold subscribe_all in *. simpl. destruct (IH (after (on_subscribe s.1 s.2) g)) as [Hc He].
  now rewrite Hc, He.
Qed.

(** X26. Joining rooms filters nothing: after any subscriptions, a
    message that parses is delivered once to every connected socket,
    whatever rooms the sockets are in. *)
Theorem subscriptions_do_not_filter
    (JSON_parse : string -> option Json) (subs : list (string * string))
    (message : string) (payload : Json) (g : Gateway) :
  JSON_parse message = Some payload ->
  emitted (after (on_message JSON_parse REALTIME_CHANNEL message) (subscribe_all subs g))
    = emitted g ++ List.map (fun c => (c, "priceUpdate", payload)) (clients g).
Proof.
  intros Hparse. destruct (subscribe_all_keeps subs g) as [Hc He].
  unfold after, on_message. simpl String.eqb. cbv iota.
  unfold try_catch, bind, parse. rewrite Hparse. simpl.
  destruct payload; simpl; now rewrite Hc, He.
Qed.

Lemma subscriptions_do_not_filter_witness :
  emitted (after (on_message sample_parse REALTIME_CHANNEL "42")
                 (subscribe_all [("b", "jup")] two_clients))
    = [("a", "priceUpdate", JNumber 42%Q); ("b", "priceUpdate", JNumber 42%Q)].
Proof.
  apply (subscriptions_do_not_filter sample_parse [("b", "jup")] "42" (JNumber 42%Q)
           two_clients).
  reflexivity.
Defined.

(** X27. A message whose text is the JSON value null is both delivered
    and reported: it is emitted to every connected socket, then reading
    its [symbol] throws inside the [try], and the error line of a parse
    failure is written. *)
Theorem null_payload_is_sent_and_reported
    (JSON_parse : string -> option Json) (message : string) (g : Gateway) :
  JSON_parse message = Some JNull ->
  completion (on_message JSON_parse REALTIME_CHANNEL message) g = Return tt /\
  emitted (after (on_message JSON_parse REALTIME_CHANNEL message) g)
    = emitted g ++ List.map (fun c => (c, "priceUpdate", JNull)) (clients g) /\
  ws_console (after (on_message JSON_parse REALTIME_CHANNEL message) g)
    = ws_console g
      ++ [ParseFailed (TypeError "Cannot read properties of null (reading 'symbol')")].
Proof.
  intros Hparse. unfold completion, after, on_message. simpl String.eqb. cbv iota.
  unfold try_catch, bind, parse. rewrite Hparse. simpl. auto.
Qed.

Lemma null_payload_is_sent_and_reported_witness :
  emitted (after (on_message sample_parse REALTIME_CHANNEL "null") two_clients)
    = [("a", "priceUpdate", JNull); ("b", "priceUpdate", JNull)] /\
  List.filter is_error
    (ws_console (after (on_message sample_parse REALTIME_CHANNEL "null") two_clients))
    = [ParseFailed (TypeError "Cannot read properties of null (reading 'symbol')")].
Proof.
  destruct (null_payload_is_sent_and_reported sample_parse "null" two_clients)
    as (_ & He & Hc); [reflexivity|].
  split; [exact He | now rewrite Hc].
Defined.

Lemma upper_same_letter (a b : ascii) : same_letter a b = true -> upper a = upper b.
Proof.
  unfold same_letter. intros H. apply orb_true_iff in H. destruct H as [H|H].
  - apply Ascii.eqb_eq in H. now subst.
  - apply existsb_exists in H. destruct H as (p & Hin & H).
    assert (Hp : upper (fst p) = snd p /\ upper (snd p) = snd p).
    { unfold letters in Hin. simpl in Hin.
      repeat (destruct Hin as [<-|Hin]; [split; reflexivity|]). contradiction. }
    destruct Hp as [Hlow Hcap].
    apply orb_true_iff in H. destruct H as [H|H];
      apply andb_true_iff in H; destruct H as [Ha Hb];
      apply Ascii.eqb_eq in Ha, Hb; subst; congruence.
Qed.

Lemma toUpperCase_ignores_case (s t : string) :
  eq_ignoring_case s t = true -> toUpperCase s = toUpperCase t.
Proof.
  revert t. induction s as [|a s IH]; intros [|b t]; simpl; try discriminate; [reflexivity|].
  intros H. apply andb_true_iff in H. destruct H as [Hab Hst].
  now rewrite (upper_same_letter a b Hab), (IH t Hst).
Qed.

(** X28. Subscriptions ignore the case of letters: two tokens that
    differ at most in the case of their ASCII letters join the same
    room and leave the gateway in the same state. *)
Theorem on_subscribe_ignores_case (socket s t : string) (g : Gateway) :
  eq_ignoring_case s t = true ->
  on_subscribe socket s g = on_subscribe socket t g.
Proof.
  intros H. unfold on_subscribe. now rewrite (toUpperCase_ignores_case s t H).
Qed.

Lemma on_subscribe_ignores_case_witness :
  rooms (after (on_subscribe "a" "bonk") two_clients)
    = rooms (after (on_subscribe "a" "BoNK") two_clients) /\
  rooms (after (on_subscribe "a" "bonk") two_clients) = [("a", "BONK"); ("a", "BONK")].
Proof.
  split; [|reflexivity].
  unfold after. now rewrite (on_subscribe_ignores_case "a" "bonk" "BoNK" two_clients eq_refl).
Defined.

(** X29. In a cycle where Redis serves, the fetch succeeds and the pair
    taken has a [volume] object: one PriceUpdateEvent with the new
    price is published exactly when a prior TickerState is read and the
    test [Math.abs(newPrice - old) / old > 0.0005], evaluated on
    doubles, succeeds; in both cases the cycle completes normally and
    the new price is written as TickerState, to expire 60 seconds
    later. *)
Theorem runRealtimeTicker_publishes_on_move
    (w : World) (solDex : list Pair) (latestPair : Pair) (rest : list Pair) (v : Volume) :
  (forall n, redis_up w n = true) ->
  completion (fetchDexScreener "SOL") (next_redis_cmd w) = Return solDex ->
  Builtin.sort by_volume_desc solDex = latestPair :: rest ->
  volume latestPair = Some v ->
  completion runRealtimeTicker w = Return tt /\
  published (after runRealtimeTicker w)
    = published w ++
      (if match read_at (now w) TICKER_KEY w with
          | Some old => moved (priceUsd latestPair) (old_price old)
          | None => false
          end
       then [(REALTIME_CHANNEL,
              mkUpdate "SOL" (Js.to_json (priceUsd latestPair)) (h24 v)
                       (now (after runRealtimeTicker w)))]
       else []) /\
  store (after runRealtimeTicker w) !! TICKER_KEY
    = Some (STicker (Js.to_json (priceUsd latestPair)),
            (now (after runRealtimeTicker w) + inject_Z (60 * 1000))%Q).
Proof.
  intros Hup Hfetch Hsort Hvol.
  destruct (ticker_awaits w solDex (Hup _) Hfetch) as (w2 & Hrun & Hs & Hp & Hu & Hc).
  assert (Hup2 : forall n, redis_up w2 n = true) by (intros n; now rewrite Hu).
  pose proof (ticker_body_run (read_at (now w) TICKER_KEY w) solDex latestPair rest w2
                Hup2 Hsort) as Hb.
  cbv zeta in Hb. rewrite Hvol in Hb.
  unfold completion, after in *. rewrite Hrun.
  destruct (match read_at (now w) TICKER_KEY w with
            | Some old => moved (priceUsd latestPair) (old_price old)
            | None => false
            end); destruct Hb as (H1 & H2 & H3); rewrite H1, H2, H3, Hp.
  - auto.
  - rewrite app_nil_r. auto.
Qed.

Lemma runRealtimeTicker_publishes_on_move_witness :
  published (after runRealtimeTicker ticker_world) =
    [(REALTIME_CHANNEL,
      mkUpdate "SOL" (Js.to_json (Js.round 100.10%Q)) (Some 900000000%Q)
               (now (after runRealtimeTicker ticker_world)))] /\
  published (after runRealtimeTicker (next_tick (after runRealtimeTicker ticker_world))) =
    published (next_tick (after runRealtimeTicker ticker_world)) /\
  store (after runRealtimeTicker (next_tick (after runRealtimeTicker ticker_world)))
    !! TICKER_KEY =
    Some (STicker (Js.to_json (Js.round 100.105%Q)),
          (now (after runRealtimeTicker (next_tick (after runRealtimeTicker ticker_world)))
           + inject_Z (60 * 1000))%Q).
Proof.
  destruct (runRealtimeTicker_publishes_on_move ticker_world
              [sol_pair 99%Q 1000%Q; sol_pair 100.10%Q 900000000%Q]
              (sol_pair 100.10%Q 900000000%Q) [sol_pair 99%Q 1000%Q]
              (mkVolume (Some 900000000%Q)))
    as (_ & Hpub1 & _);
    [intros n; reflexivity | vm_compute; reflexivity | vm_compute; reflexivity | reflexivity |].
  destruct (runRealtimeTicker_publishes_on_move
              (next_tick (after runRealtimeTicker ticker_world))
              [sol_pair 100.105%Q 900000000%Q; sol_pair 98%Q 2000%Q]
              (sol_pair 100.105%Q 900000000%Q) [sol_pair 98%Q 2000%Q]
              (mkVolume (Some 900000000%Q)))
    as (_ & Hpub2 & Hst2);
    [intros n; reflexivity | vm_compute; reflexivity | vm_compute; reflexivity | reflexivity |].
  split; [|split; [|exact Hst2]].
  - rewrite Hpub1.
    assert (E : match read_at (now ticker_world) TICKER_KEY ticker_world with
                | Some old => moved (priceUsd (sol_pair 100.10 900000000)) (old_price old)
                | None => false
                end = true) by (vm_compute; reflexivity).
    rewrite E. reflexivity.
  - rewrite Hpub2.
    assert (E : match read_at (now (next_tick (after runRealtimeTicker ticker_world)))
                        TICKER_KEY (next_tick (after runRealtimeTicker ticker_world)) with
                | Some old => moved (priceUsd (sol_pair 100.105 900000000)) (old_price old)
                | None => false
                end = false) by (vm_compute; reflexivity).
    rewrite E. apply app_nil_r.
Defined.
